(** * FAB-JAX: the SMC / AIS sampler of [fabjax/sampling/smc.py]

    A shallow embedding of the sampler's schedule construction ([build_smc]),
    weight increment ([log_weight_contribution_point]), validity repair
    ([replace_invalid_samples_with_valid_ones]), inner transition
    ([ais_inner_transition]) and forward pass ([step]).

    Modelling conventions.
    - A floating-point number is a [float]: a finite value idealised as a real
      number (rounding and overflow are not modelled) or one of the three
      non-finite values; [jnp.isfinite] is [isfinite].
    - The hyper-parameters [alpha], [resampling_threshold] and the schedule
      [betas] are real numbers.
    - A batched [Point] (the result of [jax.vmap(create_point)]) is the list of
      its particles; [jax.tree_map] over two batched points acts along that
      axis, field by field, hence particle by particle.
    - Python exceptions are values of [error]; a function that can raise
      returns a [result].
    - [jax.random] and the transition operator are interfaces ([JaxRandom],
      [TransitionOperator]). *)

From Stdlib Require Import String.
From Stdlib Require Import Reals Lra Lia List Bool Arith ZArith.
Import ListNotations.

Local Open Scope R_scope.

(** ** Exceptions *)

Inductive error : Type :=
| NotImplementedError
| AssertionError
| ValueError
| ShapeError.

Inductive result (A : Type) : Type :=
| Ok (a : A)
| Err (e : error).

Arguments Ok {A} a.
Arguments Err {A} e.

Definition bind {A B : Type} (m : result A) (k : A -> result B) : result B :=
  match m with
  | Ok a => k a
  | Err e => Err e
  end.

Notation "x <- m ;; k" := (bind m (fun x => k))
  (at level 61, m at next level, right associativity).
Notation "' p <- m ;; k" := (bind m (fun p => k))
  (at level 61, p pattern, m at next level, right associativity).

(** ** Floating-point values *)

Inductive float : Type :=
| Fin (r : R)
| PInf
| NInf
| NaN.

Definition isfinite (a : float) : bool :=
  match a with
  | Fin _ => true
  | _ => false
  end.

Definition fneg (a : float) : float :=
  match a with
  | Fin r => Fin (- r)
  | PInf => NInf
  | NInf => PInf
  | NaN => NaN
  end.

Definition fadd (a b : float) : float :=
  match a, b with
  | NaN, _ | _, NaN => NaN
  | Fin r, Fin s => Fin (r + s)
  | PInf, NInf | NInf, PInf => NaN
  | PInf, _ | _, PInf => PInf
  | NInf, _ | _, NInf => NInf
  end.

Definition fsub (a b : float) : float := fadd a (fneg b).

(** [c * a] for a real coefficient [c]: zero times a non-finite value is NaN. *)
Definition fscale (c : R) (a : float) : float :=
  match a with
  | Fin r => Fin (c * r)
  | NaN => NaN
  | PInf =>
      match total_order_T c 0 with
      | inleft (left _) => NInf
      | inleft (right _) => NaN
      | inright _ => PInf
      end
  | NInf =>
      match total_order_T c 0 with
      | inleft (left _) => PInf
      | inleft (right _) => NaN
      | inright _ => NInf
      end
  end.

Definition fexp (a : float) : float :=
  match a with
  | Fin r => Fin (exp r)
  | PInf => PInf
  | NInf => Fin 0
  | NaN => NaN
  end.

Definition flog (a : float) : float :=
  match a with
  | Fin r =>
      match total_order_T r 0 with
      | inleft (left _) => NaN
      | inleft (right _) => NInf
      | inright _ => Fin (ln r)
      end
  | PInf => PInf
  | NInf => NaN
  | NaN => NaN
  end.

(** [a < c] for a real [c]; every comparison with NaN is false. *)
Definition flt_real (a : float) (c : R) : bool :=
  match a with
  | Fin r => if Rlt_dec r c then true else false
  | NInf => true
  | PInf => false
  | NaN => false
  end.

(** [a >= c] for a real [c]. *)
Definition fge_real (a : float) (c : R) : bool :=
  match a with
  | Fin r => if Rge_dec r c then true else false
  | PInf => true
  | NInf => false
  | NaN => false
  end.

(** ** Arrays *)

(** JAX indexing [a[i]]: an index past the end is clamped to the last
    element. *)
Definition index {A : Type} (d : A) (a : list A) (i : nat) : A :=
  nth (Nat.min i (length a - 1)) a d.

(** [a[indices]]: gather along the leading axis. *)
Definition gather {A : Type} (a : list A) (indices : list nat) : list A :=
  match a with
  | [] => []
  | a0 :: _ => map (index a0 a) indices
  end.

(** Element-wise [a + b] of two rank-1 arrays with NumPy broadcasting. *)
Definition vadd (a b : list float) : result (list float) :=
  if Nat.eqb (length a) (length b) then
    Ok (map (fun ab => fadd (fst ab) (snd ab)) (combine a b))
  else
    match a, b with
    | [a0], _ => Ok (map (fadd a0) b)
    | _, [b0] => Ok (map (fun v => fadd v b0) a)
    | _, _ => Err ShapeError
    end.

(** An n-dimensional array: its shape and its elements in row-major order. *)
Record ndarray : Type := mkArray {
  shape : list nat;
  data : list float
}.

Definition rank (a : ndarray) : nat := length (shape a).

(** [chex.assert_rank(a, r)]. *)
Definition assert_rank (a : ndarray) (r : nat) : result unit :=
  if Nat.eqb (rank a) r then Ok tt else Err AssertionError.

(** The rows of a rank-2 array, the axis [jax.vmap] maps over. *)
Definition rows (a : ndarray) : list (list float) :=
  match shape a with
  | [b; d] => map (fun j => firstn d (skipn (j * d) (data a))) (seq 0 b)
  | _ => []
  end.

(** [jnp.where(mask, a, b)] with the mask broadcast over the trailing axes:
    row [j] of the result is row [j] of [a] where [mask[j]] holds and row [j]
    of [b] elsewhere.

    Modelled from the spec: [fabjax.utils.jax_util.broadcasted_where] is not
    among the sources; the spec calls it a point-wise validity mask applied by
    a where-style selection. The three arrays must agree on the batch axis. *)
Fixpoint select {A : Type} (mask : list bool) (a b : list A) : list A :=
  match mask, a, b with
  | m :: mask', u :: a', v :: b' => (if m then u else v) :: select mask' a' b'
  | _, _, _ => []
  end.

Definition broadcasted_where {A : Type} (mask : list bool) (a b : list A)
  : result (list A) :=
  if Nat.eqb (length mask) (length a) && Nat.eqb (length a) (length b) then
    Ok (select mask a b)
  else Err ShapeError.

(** ** Points *)

(** One particle's state. Modelled from the spec: [fabjax.sampling.base.Point]
    is not among the sources; the spec's data model gives the position, the
    two log-densities and an optional gradient. *)
Record Point : Type := mkPoint {
  x : list float;
  log_q : float;
  log_p : float;
  grad : option (list float)
}.

Definition LogProbFn : Type := list float -> float.

(** The validity mask of smc.py, lines 82-83 and 93-94, for one particle:
    [isfinite(log_q) & isfinite(log_p) & alltrue(isfinite(x), axis=-1)]. *)
Definition valid_sample (point : Point) : bool :=
  isfinite (log_q point) && isfinite (log_p point) && forallb isfinite (x point).

Definition valid_samples (point : list Point) : list bool :=
  map valid_sample point.

(** ** The numeric runtime: pseudo-random numbers and differentiation *)

Class JaxRuntime : Type := {
  PRNGKey : Type;
  (** [jax.random.split(key)] and [jax.random.split(key, n)] *)
  split : PRNGKey -> PRNGKey * PRNGKey;
  split_n : PRNGKey -> nat -> list PRNGKey;
  (** [jax.random.choice(key, jnp.arange(len(p)), p=p, shape=(n,))] *)
  choice : PRNGKey -> list bool -> nat -> list nat;
  (** [jax.random.categorical(key, logits, shape=(n,))] *)
  categorical : PRNGKey -> list float -> nat -> list nat;
  (** the gradient, in the position, of the annealed log-density *)
  annealed_grad : LogProbFn -> LogProbFn -> list float -> list float;
  split_n_length : forall k n, length (split_n k n) = n;
  choice_length : forall k p n, length (choice k p n) = n;
  (** a draw only returns entries of positive probability, when there is one *)
  choice_support : forall k p n i,
    existsb (fun b => b) p = true -> In i (choice k p n) -> nth i p false = true;
  categorical_length : forall k logits n, length (categorical k logits n) = n
}.

(** ** Intermediate log-density and weight increment *)

(** Modelled from the spec: [fabjax.sampling.base.get_intermediate_log_prob] is
    not among the sources. The spec (4.2) and the docstring of
    [SequentialMonteCarloSampler] give the interpolation, at level [beta],
    between [log_q] and the target [alpha * log_p - (alpha - 1) * log_q]. *)
Definition get_intermediate_log_prob (log_q log_p : float) (beta alpha : R) : float :=
  fadd (fscale (1 - beta) log_q)
       (fscale beta (fsub (fscale alpha log_p) (fscale (alpha - 1) log_q))).

(** smc.py, lines 64-69, for one particle. *)
Definition log_weight_contribution_point
  (point : Point) (ais_step_index : nat) (betas : list R) (alpha : R) : float :=
  let log_numerator :=
    get_intermediate_log_prob (log_q point) (log_p point)
      (index 0 betas (ais_step_index + 1)) alpha in
  let log_denominator :=
    get_intermediate_log_prob (log_q point) (log_p point)
      (index 0 betas ais_step_index) alpha in
  fsub log_numerator log_denominator.

(** The same on a batched point: one increment per particle. *)
Definition log_weight_contribution
  (point : list Point) (ais_step_index : nat) (betas : list R) (alpha : R)
  : list float :=
  map (fun pt => log_weight_contribution_point pt ais_step_index betas alpha) point.

(** ** The annealing schedule *)

(** Step [i] of [div] on the way from [start] to [stop]. *)
Definition interpolate (start stop : R) (div i : nat) : R :=
  start * (1 - INR i / INR div) + stop * (INR i / INR div).

(** [jnp.linspace(start, stop, num)] with the end point included: [num - 1]
    interpolated values followed by [stop] itself. *)
Definition linspace (start stop : R) (num : Z) : result (list R) :=
  if (num <? 0)%Z then Err ValueError
  else
    Ok (match Z.to_nat num with
        | O => []
        | S O => [start]
        | S div =>
            map (interpolate start stop div) (seq 0 div) ++ [stop]
        end).

Definition log10 (v : R) : R := ln v / ln 10.

(** [jnp.geomspace(start, stop, num)] for positive end points:
    [10 ** linspace(log10(start), log10(stop), num)]. *)
Definition geomspace (start stop : R) (num : Z) : result (list R) :=
  l <- linspace (log10 start) (log10 stop) num ;;
  Ok (map (Rpower 10) l).

(** smc.py, lines 131-143. [int(n / 4)] is [n / 4] rounded towards zero. *)
Definition build_betas (n_intermediate_distributions : nat)
  (spacing_type : String.string) : result (list R) :=
  if String.eqb spacing_type "geometric"%string then
    let n_intermediate_linspace_points :=
      Z.quot (Z.of_nat n_intermediate_distributions) 4 in
    let n_intermediate_geomspace_points :=
      (Z.of_nat n_intermediate_distributions
       - n_intermediate_linspace_points - 1)%Z in
    lin <- linspace 0 (1 / 100) (n_intermediate_linspace_points + 2) ;;
    geo <- geomspace (1 / 100) 1 (n_intermediate_geomspace_points + 2) ;;
    Ok (removelast lin ++ geo)
  else if String.eqb spacing_type "linear"%string then
    linspace 0 1 (Z.of_nat n_intermediate_distributions + 2)
  else Err NotImplementedError.

(** ** Resampling *)

Definition fsum (l : list float) : float := fold_left fadd l (Fin 0).

Definition logsumexp (l : list float) : float := flog (fsum (map fexp l)).

Definition fmax (a b : float) : float :=
  match a, b with
  | NaN, _ | _, NaN => NaN
  | PInf, _ | _, PInf => PInf
  | NInf, v | v, NInf => v
  | Fin r, Fin s => if Rle_dec r s then Fin s else Fin r
  end.

(** Modelled from the spec: [fabjax.sampling.resampling] is not among the
    sources. Spec 4.4: [2*logsumexp(log_weights) - logsumexp(2*log_weights)]. *)
Definition log_effective_sample_size (log_weights : list float) : float :=
  fsub (fscale 2 (logsumexp log_weights)) (logsumexp (map (fscale 2) log_weights)).

Section Sampler.

Context {RT : JaxRuntime}.

(** Modelled from the spec: [fabjax.sampling.resampling.simple_resampling] is
    not among the sources. Spec 4.4: [N] indices drawn with replacement from
    the categorical distribution proportional to
    [exp(log_weights - max(log_weights))], and the particles gathered. *)
Definition simple_resampling {A : Type} (key : PRNGKey) (log_weights : list float)
  (particles : list A) : list nat * list A :=
  let m := fold_right fmax NInf log_weights in
  let indices :=
    categorical key (map (fun w => fsub w m) log_weights) (length log_weights) in
  (indices, gather particles indices).

(** The per-batch scalar the resampling decision is taken on:
    [exp(log_ess) / N]. *)
Definition normalized_ess (log_weights : list float) : float :=
  fscale (/ INR (length log_weights)) (fexp (log_effective_sample_size log_weights)).

(** Modelled from the spec: [fabjax.sampling.resampling.optionally_resample] is
    not among the sources. Spec 4.4: below the threshold the batch is
    resampled and every log-weight is reset to the log of [1/N] of the total
    mass; otherwise samples and weights are returned as they are. *)
Definition optionally_resample {A : Type} (key : PRNGKey) (log_weights : list float)
  (samples : list A) (resample_threshold : R)
  : list A * list float * float :=
  let log_ess := log_effective_sample_size log_weights in
  if flt_real (normalized_ess log_weights) resample_threshold then
    let N := length log_weights in
    let uniform := flog (fscale (/ INR N) (fsum (map fexp log_weights))) in
    (snd (simple_resampling key log_weights samples), repeat uniform N, log_ess)
  else (samples, log_weights, log_ess).

(** ** Point construction and validity repair *)

(** Modelled from the spec: [fabjax.sampling.base.create_point] is not among
    the sources. Spec 4.1: both densities evaluated at the position, and the
    gradient when [with_grad]. *)
Definition create_point (log_q_fn log_p_fn : LogProbFn) (with_grad : bool)
  (position : list float) : Point :=
  {| x := position;
     log_q := log_q_fn position;
     log_p := log_p_fn position;
     grad := if with_grad then Some (annealed_grad log_q_fn log_p_fn position)
             else None |}.

(** smc.py, lines 91-101. *)
Definition replace_invalid_samples_with_valid_ones (point : list Point)
  (key : PRNGKey) : result (list Point) :=
  let valid_samples := valid_samples point in
  let p := map (fun v : bool => if v then true else false) valid_samples in
  let indices := choice key p (length valid_samples) in
  let alt_points := gather point indices in
  broadcasted_where valid_samples point alt_points.

(** ** The transition operator *)

Record TransitionOperator : Type := {
  TState : Type;
  Info : Type;
  (** the pytree structure of a state, as [chex] compares it *)
  TreeDef : Type;
  treedef_eq_dec : forall a b : TreeDef, {a = b} + {a <> b};
  structure : TState -> TreeDef;
  op_init : PRNGKey -> TState;
  op_step : list Point -> TState -> R -> R -> LogProbFn -> LogProbFn
            -> list Point * TState * Info;
  uses_grad : bool
}.

(** [chex.assert_trees_all_equal_structs] on two stacks of per-stage states. *)
Definition assert_trees_all_equal_structs (op : TransitionOperator)
  (a b : list (TState op)) : result unit :=
  if list_eq_dec (treedef_eq_dec op) (map (structure op) a) (map (structure op) b)
  then Ok tt else Err AssertionError.

(** smc.py, lines 72-88. *)
Definition ais_inner_transition (op : TransitionOperator)
  (point : list Point) (log_w : list float) (trans_op_state : TState op)
  (betas : list R) (ais_step_index : nat)
  (log_q_fn log_p_fn : LogProbFn) (alpha : R)
  : result ((list Point * list float) * (TState op * Info op)) :=
  let beta := index 0 betas ais_step_index in
  let '(new_point, trans_op_state, info) :=
    op_step op point trans_op_state beta alpha log_q_fn log_p_fn in
  (* Remove invalid samples. *)
  let valid_samples := valid_samples new_point in
  point <- broadcasted_where valid_samples new_point point ;;
  log_w <- vadd log_w (log_weight_contribution point ais_step_index betas alpha) ;;
  Ok ((point, log_w), (trans_op_state, info)).

(** ** The forward pass *)

Record SMCState (op : TransitionOperator) : Type := mkSMCState {
  transition_operator_state : list (TState op);
  key : PRNGKey
}.

Arguments transition_operator_state {op} _.
Arguments key {op} _.

(** [jax.lax.scan]: the carry threaded through the per-step inputs, the
    per-step outputs stacked. *)
Fixpoint scan {C X Y : Type} (f : C -> X -> result (C * Y)) (init : C)
  (xs : list X) : result (C * list Y) :=
  match xs with
  | [] => Ok (init, [])
  | x0 :: xs' =>
      '(c, y) <- f init x0 ;;
      '(c', ys) <- scan f c xs' ;;
      Ok (c', y :: ys)
  end.

(** The carries a scan goes through, one after each step; the last one is
    the carry [scan] returns. *)
Fixpoint scan_carries {C X Y : Type} (f : C -> X -> result (C * Y)) (init : C)
  (xs : list X) : result (list C) :=
  match xs with
  | [] => Ok []
  | x0 :: xs' =>
      '(c, _) <- f init x0 ;;
      cs <- scan_carries f c xs' ;;
      Ok (c :: cs)
  end.

(** The per-step inputs of the scan: every component must have [length]
    entries along its leading axis. *)
Definition per_step_inputs {S : Type} (subkey : PRNGKey) (states : list S)
  (n : nat) : result (list (PRNGKey * S * nat)) :=
  if Nat.eqb (length states) n then
    Ok (combine (combine (split_n subkey n) states) (map (fun i => i + 1)%nat (seq 0 n)))
  else Err ValueError.

Section Closure.

(** What the closures [init] and [step] of [build_smc] capture. *)
Variable transition_operator : TransitionOperator.
Variable n_intermediate_distributions : nat.
Variable betas : list R.
Variable alpha : R.
Variable use_resampling : bool.
Variable resampling_threshold : R.

(** smc.py, lines 146-152. *)
Definition init (key : PRNGKey) : SMCState transition_operator :=
  let '(key1, key2) := split key in
  let trans_op_state := op_init transition_operator key1 in
  mkSMCState transition_operator
    (repeat trans_op_state n_intermediate_distributions) key2.

(** smc.py, lines 189-203; the [ess] entry of [info] is kept next to the
    operator's diagnostics. *)
Definition body_fn (log_q_fn log_p_fn : LogProbFn)
  (carry : list Point * list float)
  (xs : PRNGKey * TState transition_operator * nat)
  : result ((list Point * list float)
            * (TState transition_operator * (option float * Info transition_operator))) :=
  let '(point, log_w) := carry in
  let '(key, trans_op_state, ais_step_index) := xs in
  let '(point, log_w, ess) :=
    if use_resampling then
      let '(point, log_w, log_ess) :=
        optionally_resample key log_w point resampling_threshold in
      (point, log_w, Some (fexp log_ess))
    else (point, log_w, None) in
  '(carry', (trans_op_state, info_transition)) <-
    ais_inner_transition transition_operator point log_w trans_op_state betas
      ais_step_index log_q_fn log_p_fn alpha ;;
  Ok (carry', (trans_op_state, (ess, info_transition))).

(** The first half of [step], smc.py lines 172-185: the start of the chain. *)
Definition start_of_chain (x0 : ndarray) (smc_state : SMCState transition_operator)
  (log_q_fn log_p_fn : LogProbFn) : result (list Point * PRNGKey) :=
  _ <- assert_rank x0 2 ;;
  let point0 :=
    map (create_point log_q_fn log_p_fn (uses_grad transition_operator)) (rows x0) in
  let '(key, subkey) := split (key smc_state) in
  point0 <- replace_invalid_samples_with_valid_ones point0 key ;;
  Ok (point0, key).

(** smc.py, lines 155-229. Of the diagnostics, the per-stage [infos] are
    returned; the summary statistics added to [info] at the end do not feed
    back into the sampler. *)
Definition step (x0 : ndarray) (smc_state : SMCState transition_operator)
  (log_q_fn log_p_fn : LogProbFn)
  : result (list Point * list float * SMCState transition_operator
            * list (option float * Info transition_operator)) :=
  '(point0, key) <- start_of_chain x0 smc_state log_q_fn log_p_fn ;;
  let log_w_init := log_weight_contribution point0 0 betas alpha in
  let log_w := log_w_init in
  let '(key, subkey) := split key in
  xs <- per_step_inputs subkey (transition_operator_state smc_state)
          n_intermediate_distributions ;;
  let scan_init := (point0, log_w) in
  '((point, log_w), trans_op_states_infos) <-
    scan (body_fn log_q_fn log_p_fn) scan_init xs ;;
  let trans_op_states := map fst trans_op_states_infos in
  let infos := map snd trans_op_states_infos in
  _ <- assert_trees_all_equal_structs transition_operator
         (transition_operator_state smc_state) trans_op_states ;;
  let smc_state := mkSMCState transition_operator trans_op_states key in
  Ok (point, log_w, smc_state, infos).

End Closure.

(** smc.py, lines 43-60 and 232-235. *)
Record SequentialMonteCarloSampler : Type := mkSampler {
  smc_transition_operator : TransitionOperator;
  smc_init : PRNGKey -> SMCState smc_transition_operator;
  smc_step : ndarray -> SMCState smc_transition_operator -> LogProbFn -> LogProbFn
             -> result (list Point * list float * SMCState smc_transition_operator
                        * list (option float * Info smc_transition_operator));
  smc_use_resampling : bool;
  smc_betas : list R;
  smc_alpha : R
}.

(** smc.py, lines 104-235. *)
Definition build_smc (transition_operator : TransitionOperator)
  (n_intermediate_distributions : nat) (spacing_type : string) (alpha : R)
  (use_resampling : bool) (resampling_threshold : R)
  : result SequentialMonteCarloSampler :=
  betas <- build_betas n_intermediate_distributions spacing_type ;;
  Ok {| smc_transition_operator := transition_operator;
        smc_init := init transition_operator n_intermediate_distributions;
        smc_step := step transition_operator n_intermediate_distributions betas
                      alpha use_resampling resampling_threshold;
        smc_use_resampling := use_resampling;
        smc_betas := betas;
        smc_alpha := alpha |}.

End Sampler.

Arguments transition_operator_state {RT op} _.
Arguments key {RT op} _.

(** ** Diagnostics of the forward pass *)


(** ** The flow recipe of [fabjax/flow/build_flow.py] *)

Module BuildFlow.

(** [Union[str, Sequence[str]]] *)
Inductive FlowType : Type :=
| OneType (name : string)
| ManyTypes (names : list string).

(** build_flow.py, lines 12-19. *)
Record FlowDistConfig : Type := mkConfig {
  dim : nat;
  n_layers : nat;
  conditioner_mlp_units : list nat;
  type : FlowType;
  act_norm : bool;
  identity_init : bool;
  compile_n_unroll : nat
}.

(** [distrax.MultivariateNormalDiag(loc, scale_diag)] *)
Record Distribution : Type := MultivariateNormalDiag {
  loc : list R;
  scale_diag : list R
}.

(** The layers the recipe asks the external builders for, by the call that
    builds them: [build_act_norm_layer(dim, identity_init)] and
    [build_split_coupling_bijector(dim, identity_init, mlp_units)]. *)
Inductive Bijector : Type :=
| ActNormLayer (dim : nat) (identity_init : bool)
| SplitCouplingBijector (dim : nat) (identity_init : bool) (mlp_units : list nat).

(** [ChainWithExtra(bijectors)] *)
Inductive Chain : Type :=
| ChainWithExtra (bijectors : list Bijector).

Record FlowRecipe : Type := mkRecipe {
  make_base : unit -> Distribution;
  make_bijector : unit -> Chain;
  recipe_n_layers : nat;
  recipe_config : FlowDistConfig;
  recipe_dim : nat;
  recipe_compile_n_unroll : nat
}.

(** [name in names] *)
Definition contains (names : list string) (name : string) : bool :=
  existsb (String.eqb name) names.

(** build_flow.py, line 29. *)
Definition flow_type_of (config : FlowDistConfig) : list string :=
  match type config with
  | OneType name => [name]
  | ManyTypes names => names
  end.

(** build_flow.py, lines 28-61. *)
Definition create_flow_recipe (config : FlowDistConfig) : result FlowRecipe :=
  let flow_type := flow_type_of config in
  if forallb (contains ["split_coupling"%string]) flow_type then
    let make_base := fun _ : unit =>
      MultivariateNormalDiag (repeat 0 (dim config)) (repeat 1 (dim config)) in
    let make_bijector := fun _ : unit =>
      let bijectors := [] in
      let bijectors :=
        if act_norm config
        then bijectors ++ [ActNormLayer (dim config) (identity_init config)]
        else bijectors in
      let bijectors :=
        if contains flow_type "split_coupling"
        then bijectors ++ [SplitCouplingBijector (dim config) (identity_init config)
                             (conditioner_mlp_units config)]
        else bijectors in
      ChainWithExtra bijectors in
    Ok {| make_base := make_base;
          make_bijector := make_bijector;
          recipe_n_layers := n_layers config;
          recipe_config := config;
          recipe_dim := dim config;
          recipe_compile_n_unroll := compile_n_unroll config |}
  else Err AssertionError.

End BuildFlow.

(** ** The reference problem of [fabjax/sampling/smc_test.py] *)

Module SmcTest.





End SmcTest.

(** ** A deterministic runtime and three transition operators

    Concrete inhabitants of the two interfaces, on which the statements below
    are evaluated. *)

Fixpoint first_true (p : list bool) : nat :=
  match p with
  | [] => O
  | true :: _ => O
  | false :: p' => S (first_true p')
  end.

Lemma first_true_support (p : list bool) :
  existsb (fun b => b) p = true -> nth (first_true p) p false = true.
Proof.
  induction p as [| [|] p IH]; simpl; intro H.
  - discriminate.
  - reflexivity.
  - apply IH, H.
Qed.

Lemma repeat_support (p : list bool) (n i : nat) :
  existsb (fun b => b) p = true ->
  In i (repeat (first_true p) n) -> nth i p false = true.
Proof.
  intros Hp Hin. apply repeat_spec in Hin. subst i.
  now apply first_true_support.
Qed.

Lemma split_seq_length (k n : nat) :
  length (map (fun i => k + i)%nat (seq 0 n)) = n.
Proof. now rewrite length_map, length_seq. Qed.

Definition det_runtime : JaxRuntime :=
  {| PRNGKey := nat;
     split := fun k => (2 * k + 1, 2 * k + 2)%nat;
     split_n := fun k n => map (fun i => k + i)%nat (seq 0 n);
     choice := fun _ p n => repeat (first_true p) n;
     categorical := fun _ _ n => repeat O n;
     annealed_grad := fun _ _ position => map (fun _ => Fin 0) position;
     split_n_length := split_seq_length;
     choice_length := fun _ p n => repeat_length (first_true p) n;
     choice_support := fun _ p n i => repeat_support p n i;
     categorical_length := fun _ _ n => repeat_length O n |}.

(** The operator that leaves every particle where it is. *)
Definition idle_operator : @TransitionOperator det_runtime :=
  {| TState := unit;
     Info := unit;
     TreeDef := unit;
     treedef_eq_dec := fun a b => match a, b with tt, tt => left eq_refl end;
     structure := fun _ => tt;
     op_init := fun _ => tt;
     op_step := fun point st _ _ _ _ => (point, st, tt);
     uses_grad := false |}.

(** An operator whose every proposal has a NaN target density. *)
Definition nan_operator : @TransitionOperator det_runtime :=
  {| TState := unit;
     Info := unit;
     TreeDef := unit;
     treedef_eq_dec := fun a b => match a, b with tt, tt => left eq_refl end;
     structure := fun _ => tt;
     op_init := fun _ => tt;
     op_step := fun point st _ _ _ _ =>
       (map (fun pt => {| x := x pt; log_q := log_q pt; log_p := NaN;
                          grad := grad pt |}) point, st, tt);
     uses_grad := false |}.

(** An operator that returns a state of another pytree structure. *)
Definition restructuring_operator : @TransitionOperator det_runtime :=
  {| TState := nat;
     Info := unit;
     TreeDef := nat;
     treedef_eq_dec := Nat.eq_dec;
     structure := fun s => s;
     op_init := fun _ => O;
     op_step := fun point st _ _ _ _ => (point, S st, tt);
     uses_grad := false |}.

Definition origin : list float := [Fin 0; Fin 0].

(** Two particles at the origin. *)
Definition x0_example : ndarray :=
  {| shape := [2; 2]%nat; data := [Fin 0; Fin 0; Fin 0; Fin 0] |}.

Definition flat_log_prob : LogProbFn := fun _ => Fin 0.

(** * Properties *)

(** ** Floating-point helpers *)

Lemma fscale_Fin (c r : R) : fscale c (Fin r) = Fin (c * r).
Proof. reflexivity. Qed.

Lemma isfinite_Fin (a : float) : isfinite a = true -> exists r, a = Fin r.
Proof. destruct a; simpl; intro H; try discriminate. now exists r. Qed.

Lemma get_intermediate_log_prob_Fin (q p beta alpha : R) :
  get_intermediate_log_prob (Fin q) (Fin p) beta alpha
  = Fin ((1 - beta) * q + beta * (alpha * p + - ((alpha - 1) * q))).
Proof. reflexivity. Qed.

(** C5: for finite [log_q] and [log_p] and every [alpha], the intermediate
    log-density at [beta = 0] is [log_q], and at [beta = 1] it is
    [alpha * log_p - (alpha - 1) * log_q]. *)
Theorem get_intermediate_log_prob_endpoints (log_q log_p : float) (alpha : R) :
  isfinite log_q = true ->
  isfinite log_p = true ->
  get_intermediate_log_prob log_q log_p 0 alpha = log_q
  /\ get_intermediate_log_prob log_q log_p 1 alpha
     = fsub (fscale alpha log_p) (fscale (alpha - 1) log_q).
Proof.
  intros Hq Hp.
  destruct (isfinite_Fin _ Hq) as [q ->], (isfinite_Fin _ Hp) as [p ->].
  rewrite !get_intermediate_log_prob_Fin. unfold fsub. simpl.
  split; f_equal; ring.
Qed.

Lemma get_intermediate_log_prob_endpoints_witness :
  get_intermediate_log_prob (Fin 3) (Fin 5) 0 2 = Fin 3
  /\ get_intermediate_log_prob (Fin 3) (Fin 5) 1 2
     = fsub (fscale 2 (Fin 5)) (fscale (2 - 1) (Fin 3)).
Proof.
  apply (get_intermediate_log_prob_endpoints (Fin 3) (Fin 5) 2); reflexivity.
Defined.

Lemma bind_Ok {A B : Type} (a : A) (k : A -> result B) : bind (Ok a) k = k a.
Proof. reflexivity. Qed.

(** ** The schedule *)

Definition non_decreasing (l : list R) : Prop :=
  forall i j : nat, (i <= j)%nat -> (j < length l)%nat -> nth i l 0 <= nth j l 0.

Lemma nth_map_seq (f : nat -> R) (m i : nat) (d : R) :
  (i < m)%nat -> nth i (map f (seq 0 m)) d = f i.
Proof.
  intro H.
  rewrite (nth_indep _ d (f O)) by now rewrite length_map, length_seq.
  rewrite map_nth. f_equal. now rewrite seq_nth.
Qed.

Lemma non_decreasing_map_seq (f : nat -> R) (m : nat) :
  (forall i j, (i <= j)%nat -> (j < m)%nat -> f i <= f j) ->
  non_decreasing (map f (seq 0 m)).
Proof.
  intros Hf i j Hij Hj.
  rewrite length_map, length_seq in Hj.
  rewrite !nth_map_seq by lia. now apply Hf.
Qed.

Lemma non_decreasing_app (l1 l2 : list R) :
  non_decreasing l1 -> non_decreasing l2 ->
  (forall u v, In u l1 -> In v l2 -> u <= v) ->
  non_decreasing (l1 ++ l2).
Proof.
  intros H1 H2 H12 i j Hij Hj. rewrite length_app in Hj.
  destruct (Nat.lt_ge_cases j (length l1)) as [Hj1 | Hj1].
  - rewrite !app_nth1 by lia. now apply H1.
  - rewrite (app_nth2 l1 l2 0 Hj1).
    destruct (Nat.lt_ge_cases i (length l1)) as [Hi1 | Hi1].
    + rewrite app_nth1 by lia. apply H12; apply nth_In; lia.
    + rewrite (app_nth2 l1 l2 0 Hi1). apply H2; lia.
Qed.

Lemma INR_S_pos (k : nat) : 0 < INR (S k).
Proof. apply lt_0_INR. lia. Qed.

Lemma interpolate_eq (a b : R) (k i : nat) :
  interpolate a b (S k) i = a + (b - a) * (INR i / INR (S k)).
Proof. unfold interpolate. ring. Qed.

Lemma interpolate_first (a b : R) (k : nat) : interpolate a b (S k) 0 = a.
Proof. rewrite interpolate_eq. simpl INR. unfold Rdiv. ring. Qed.

Lemma interpolate_last (a b : R) (k : nat) : interpolate a b (S k) (S k) = b.
Proof.
  rewrite interpolate_eq. pose proof (INR_S_pos k).
  replace (INR (S k) / INR (S k)) with 1 by (field; lra). ring.
Qed.

Lemma interpolate_mono (a b : R) (k i j : nat) :
  a <= b -> (i <= j)%nat -> interpolate a b (S k) i <= interpolate a b (S k) j.
Proof.
  intros Hab Hij. rewrite !interpolate_eq.
  pose proof (INR_S_pos k) as Hk. apply le_INR in Hij.
  apply Rplus_le_compat_l, Rmult_le_compat_l; [lra |].
  unfold Rdiv. apply Rmult_le_compat_r; [| exact Hij].
  left. now apply Rinv_0_lt_compat.
Qed.

Lemma interpolate_range (a b : R) (k i : nat) :
  a <= b -> (i <= S k)%nat -> a <= interpolate a b (S k) i <= b.
Proof.
  intros Hab Hi. split.
  - rewrite <- (interpolate_first a b k) at 1. apply interpolate_mono; [easy | lia].
  - rewrite <- (interpolate_last a b k) at 2. now apply interpolate_mono.
Qed.

(** With at least two points, [linspace] is the interpolation at the steps
    [0 .. num - 1]. *)
Lemma linspace_seq (a b : R) (k : nat) :
  linspace a b (Z.of_nat k + 2)
  = Ok (map (interpolate a b (S k)) (seq 0 (S (S k)))).
Proof.
  unfold linspace.
  replace (Z.of_nat k + 2 <? 0)%Z with false by (symmetry; apply Z.ltb_ge; lia).
  replace (Z.to_nat (Z.of_nat k + 2)) with (S (S k)) by lia.
  f_equal. rewrite (seq_S (S k)), map_app. simpl map at 3.
  now rewrite interpolate_last.
Qed.

Lemma log10_1 : log10 1 = 0.
Proof. unfold log10. rewrite ln_1. unfold Rdiv. ring. Qed.

Lemma ln_10_pos : 0 < ln 10.
Proof. rewrite <- ln_1. apply ln_increasing; lra. Qed.

Lemma Rpower_10_log10 (v : R) : 0 < v -> Rpower 10 (log10 v) = v.
Proof.
  intro Hv. unfold Rpower, log10. pose proof ln_10_pos.
  replace (ln v / ln 10 * ln 10) with (ln v) by (field; lra).
  now apply exp_ln.
Qed.

Lemma log10_hundredth_neg : log10 (1 / 100) <= log10 1.
Proof.
  unfold log10. pose proof ln_10_pos as H10.
  apply Rmult_le_compat_r; [left; now apply Rinv_0_lt_compat |].
  left. apply ln_increasing; lra.
Qed.

(** The geometric part of the schedule, as a function of the step. *)
Definition geom_at (g i : nat) : R :=
  Rpower 10 (interpolate (log10 (1 / 100)) (log10 1) (S g) i).

Lemma geom_at_mono (g i j : nat) : (i <= j)%nat -> geom_at g i <= geom_at g j.
Proof.
  intro Hij. apply Rle_Rpower; [lra |].
  apply interpolate_mono; [apply log10_hundredth_neg | exact Hij].
Qed.

Lemma geom_at_first (g : nat) : geom_at g 0 = 1 / 100.
Proof. unfold geom_at. rewrite interpolate_first. apply Rpower_10_log10. lra. Qed.

Lemma geom_at_last (g : nat) : geom_at g (S g) = 1.
Proof. unfold geom_at. rewrite interpolate_last. apply Rpower_10_log10. lra. Qed.

Lemma geom_at_range (g i : nat) : (i <= S g)%nat -> 1 / 100 <= geom_at g i <= 1.
Proof.
  intro Hi. split.
  - rewrite <- (geom_at_first g). apply geom_at_mono. lia.
  - rewrite <- (geom_at_last g). now apply geom_at_mono.
Qed.

Lemma geomspace_seq (g : nat) :
  geomspace (1 / 100) 1 (Z.of_nat g + 2) = Ok (map (geom_at g) (seq 0 (S (S g)))).
Proof.
  unfold geomspace. rewrite linspace_seq. simpl bind. now rewrite map_map.
Qed.

Lemma build_betas_linear (n : nat) :
  build_betas n "linear" = Ok (map (interpolate 0 1 (S n)) (seq 0 (S (S n)))).
Proof. unfold build_betas. simpl String.eqb. apply linspace_seq. Qed.

Lemma quarter_of_nat (n : nat) : Z.quot (Z.of_nat n) 4 = Z.of_nat (n / 4).
Proof.
  rewrite Z.quot_div_nonneg by lia.
  now rewrite (Nat2Z.inj_div n 4).
Qed.

Lemma quarter_below (n : nat) : (1 <= n)%nat -> (n / 4 <= n - 1)%nat.
Proof.
  intro H. pose proof (Nat.div_mod_eq n 4). lia.
Qed.

Lemma build_betas_geometric (n : nat) :
  (1 <= n)%nat ->
  build_betas n "geometric"
  = Ok (map (interpolate 0 (1 / 100) (S (n / 4))) (seq 0 (S (n / 4)))
        ++ map (geom_at (n - n / 4 - 1)) (seq 0 (S (S (n - n / 4 - 1))))).
Proof.
  intro Hn. pose proof (quarter_below n Hn) as Hq.
  unfold build_betas. simpl String.eqb. cbv zeta.
  rewrite quarter_of_nat, linspace_seq, bind_Ok.
  replace (Z.of_nat n - Z.of_nat (n / 4) - 1 + 2)%Z
    with (Z.of_nat (n - n / 4 - 1) + 2)%Z by lia.
  rewrite geomspace_seq, bind_Ok. do 2 f_equal.
  rewrite (seq_S (S (n / 4))), map_app. simpl map at 2.
  apply removelast_last.
Qed.

(** What the spec asks of a schedule for [n] intermediate distributions. *)
Definition valid_schedule (n : nat) (betas : list R) : Prop :=
  length betas = (n + 2)%nat
  /\ nth 0 betas 0 = 0
  /\ last betas 0 = 1
  /\ non_decreasing betas
  /\ Forall (fun b => 0 <= b <= 1) betas.

Lemma last_map_seq (f : nat -> R) (m : nat) (d : R) :
  last (map f (seq 0 (S m))) d = f m.
Proof. rewrite seq_S, map_app. simpl. apply last_last. Qed.

Lemma last_app_nonempty (l1 l2 : list R) (d : R) :
  l2 <> [] -> last (l1 ++ l2) d = last l2 d.
Proof.
  intro H. induction l1 as [| u l1 IH]; [reflexivity |].
  simpl app. rewrite <- IH. simpl.
  destruct (l1 ++ l2) eqn:E; [| reflexivity].
  apply app_eq_nil in E. now destruct E.
Qed.

Lemma Forall_map_seq (P : R -> Prop) (f : nat -> R) (m : nat) :
  (forall i, (i < m)%nat -> P (f i)) -> Forall P (map f (seq 0 m)).
Proof.
  intro H. apply Forall_forall. intros v Hv.
  apply in_map_iff in Hv. destruct Hv as (i & <- & Hi).
  apply in_seq in Hi. apply H. lia.
Qed.

Lemma linear_schedule (n : nat) :
  valid_schedule n (map (interpolate 0 1 (S n)) (seq 0 (S (S n)))).
Proof.
  repeat split.
  - rewrite length_map, length_seq. lia.
  - rewrite nth_map_seq by lia. apply interpolate_first.
  - rewrite last_map_seq. apply interpolate_last.
  - apply non_decreasing_map_seq. intros i j Hij _.
    apply interpolate_mono; [lra | exact Hij].
  - apply Forall_map_seq. intros i Hi. apply interpolate_range; [lra | lia].
Qed.

Lemma geometric_schedule (n : nat) :
  (1 <= n)%nat ->
  valid_schedule n
    (map (interpolate 0 (1 / 100) (S (n / 4))) (seq 0 (S (n / 4)))
     ++ map (geom_at (n - n / 4 - 1)) (seq 0 (S (S (n - n / 4 - 1))))).
Proof.
  intro Hn. pose proof (quarter_below n Hn) as Hq.
  set (l := (n / 4)%nat) in *. set (g := (n - l - 1)%nat).
  assert (Hlin : forall i, (i < S l)%nat ->
            0 <= interpolate 0 (1 / 100) (S l) i <= 1 / 100)
    by (intros i Hi; apply interpolate_range; [lra | lia]).
  assert (Hgeo : forall i, (i < S (S g))%nat -> 1 / 100 <= geom_at g i <= 1)
    by (intros i Hi; apply geom_at_range; lia).
  repeat split.
  - rewrite length_app, !length_map, !length_seq. unfold g. lia.
  - rewrite app_nth1 by (rewrite length_map, length_seq; lia).
    rewrite nth_map_seq by lia. apply interpolate_first.
  - rewrite last_app_nonempty by discriminate.
    rewrite last_map_seq. apply geom_at_last.
  - apply non_decreasing_app.
    + apply non_decreasing_map_seq. intros i j Hij _.
      apply interpolate_mono; [lra | exact Hij].
    + apply non_decreasing_map_seq. intros i j Hij _. now apply geom_at_mono.
    + intros u v Hu Hv.
      apply in_map_iff in Hu. destruct Hu as (i & <- & Hi). apply in_seq in Hi.
      apply in_map_iff in Hv. destruct Hv as (j & <- & Hj). apply in_seq in Hj.
      specialize (Hlin i ltac:(lia)). specialize (Hgeo j ltac:(lia)). lra.
  - apply Forall_app. split; apply Forall_map_seq; intros i Hi.
    + specialize (Hlin i Hi). lra.
    + specialize (Hgeo i Hi). lra.
Qed.

Lemma build_betas_valid (n : nat) (spacing_type : string) :
  (1 <= n)%nat ->
  spacing_type = "linear"%string \/ spacing_type = "geometric"%string ->
  exists betas, build_betas n spacing_type = Ok betas /\ valid_schedule n betas.
Proof.
  intros Hn [-> | ->].
  - eexists. split; [apply build_betas_linear | apply linear_schedule].
  - eexists. split; [now apply build_betas_geometric | now apply geometric_schedule].
Qed.

(** C2: for [n_intermediate_distributions >= 1] and a linear or geometric
    spacing, [build_smc] returns a sampler whose [betas] has length
    [n_intermediate_distributions + 2], starts at 0, ends at 1, is
    non-decreasing and lies in [0, 1]. *)
Theorem build_smc_betas {RT : JaxRuntime} (transition_operator : TransitionOperator)
  (n_intermediate_distributions : nat) (spacing_type : string) (alpha : R)
  (use_resampling : bool) (resampling_threshold : R) :
  (1 <= n_intermediate_distributions)%nat ->
  spacing_type = "linear"%string \/ spacing_type = "geometric"%string ->
  exists smc,
    build_smc transition_operator n_intermediate_distributions spacing_type
      alpha use_resampling resampling_threshold = Ok smc
    /\ length (smc_betas smc) = (n_intermediate_distributions + 2)%nat
    /\ nth 0 (smc_betas smc) 0 = 0
    /\ last (smc_betas smc) 0 = 1
    /\ non_decreasing (smc_betas smc)
    /\ Forall (fun b => 0 <= b <= 1) (smc_betas smc).
Proof.
  intros Hn Hs.
  destruct (build_betas_valid _ _ Hn Hs) as (betas & Hb & Hv).
  unfold build_smc. rewrite Hb, bind_Ok.
  eexists. split; [reflexivity | exact Hv].
Qed.

Lemma build_smc_betas_witness :
  exists smc,
    build_smc idle_operator 4 "geometric" 2 false (3 / 10) = Ok smc
    /\ length (smc_betas smc) = (4 + 2)%nat
    /\ nth 0 (smc_betas smc) 0 = 0
    /\ last (smc_betas smc) 0 = 1
    /\ non_decreasing (smc_betas smc)
    /\ Forall (fun b => 0 <= b <= 1) (smc_betas smc).
Proof.
  apply (@build_smc_betas det_runtime idle_operator 4 "geometric" 2 false (3 / 10)).
  - lia.
  - right. reflexivity.
Defined.

Lemma build_betas_geometric_ok (n : nat) :
  exists betas, build_betas n "geometric" = Ok betas.
Proof.
  destruct n as [| n].
  - eexists. reflexivity.
  - eexists. apply build_betas_geometric. lia.
Qed.

(** C8: [build_smc] raises [NotImplementedError] for every spacing type other
    than linear and geometric, and returns a sampler for these two. *)
Theorem build_smc_spacing_type {RT : JaxRuntime}
  (transition_operator : TransitionOperator)
  (n_intermediate_distributions : nat) (spacing_type : string) (alpha : R)
  (use_resampling : bool) (resampling_threshold : R) :
  (spacing_type <> "linear"%string -> spacing_type <> "geometric"%string ->
   build_smc transition_operator n_intermediate_distributions spacing_type
     alpha use_resampling resampling_threshold = Err NotImplementedError)
  /\ (spacing_type = "linear"%string \/ spacing_type = "geometric"%string ->
      exists smc,
        build_smc transition_operator n_intermediate_distributions spacing_type
          alpha use_resampling resampling_threshold = Ok smc).
Proof.
  split.
  - intros Hl Hg. unfold build_smc, build_betas.
    apply String.eqb_neq in Hl, Hg. now rewrite Hg, Hl.
  - intros [-> | ->]; unfold build_smc.
    + rewrite build_betas_linear, bind_Ok. now eexists.
    + destruct (build_betas_geometric_ok n_intermediate_distributions) as [b ->].
      rewrite bind_Ok. now eexists.
Qed.

Lemma build_smc_spacing_type_witness :
  build_smc idle_operator 3 "cosine" 2 true (3 / 10) = Err NotImplementedError
  /\ exists smc, build_smc idle_operator 3 "linear" 2 true (3 / 10) = Ok smc.
Proof.
  split.
  - apply (proj1 (@build_smc_spacing_type det_runtime idle_operator 3 "cosine"
                    2 true (3 / 10))); discriminate.
  - apply (proj2 (@build_smc_spacing_type det_runtime idle_operator 3 "linear"
                    2 true (3 / 10))).
    left. reflexivity.
Defined.

(** ** The weight increment *)

Lemma index_in_range {A : Type} (d : A) (a : list A) (i : nat) :
  (i < length a)%nat -> index d a i = nth i a d.
Proof. intro H. unfold index. f_equal. lia. Qed.

(** C3: for a step index [0 <= i <= n] the increment of a point is the
    intermediate log-density at [betas[i+1]] minus the one at [betas[i]], both
    taken at the [log_q] and [log_p] stored on the point: no other field of the
    point, and no density function, enters the result. *)
Theorem log_weight_contribution_point_spec (point : Point) (i n : nat)
  (betas : list R) (alpha : R) :
  length betas = (n + 2)%nat ->
  (i <= n)%nat ->
  log_weight_contribution_point point i betas alpha
  = fsub (get_intermediate_log_prob (log_q point) (log_p point)
            (nth (i + 1) betas 0) alpha)
         (get_intermediate_log_prob (log_q point) (log_p point)
            (nth i betas 0) alpha)
  /\ forall point' : Point,
       log_q point' = log_q point -> log_p point' = log_p point ->
       log_weight_contribution_point point' i betas alpha
       = log_weight_contribution_point point i betas alpha.
Proof.
  intros Hlen Hi. split.
  - unfold log_weight_contribution_point. cbv zeta.
    now rewrite !index_in_range by lia.
  - intros point' Hq Hp. unfold log_weight_contribution_point.
    now rewrite Hq, Hp.
Qed.

Lemma log_weight_contribution_point_spec_witness :
  let point := {| x := origin; log_q := Fin 1; log_p := Fin 4; grad := None |} in
  let betas := [0; 1 / 2; 1] in
  log_weight_contribution_point point 1 betas 2
  = fsub (get_intermediate_log_prob (Fin 1) (Fin 4) 1 2)
         (get_intermediate_log_prob (Fin 1) (Fin 4) (1 / 2) 2)
  /\ forall point' : Point,
       log_q point' = Fin 1 -> log_p point' = Fin 4 ->
       log_weight_contribution_point point' 1 betas 2
       = log_weight_contribution_point point 1 betas 2.
Proof.
  apply (log_weight_contribution_point_spec
           {| x := origin; log_q := Fin 1; log_p := Fin 4; grad := None |}
           1 1 [0; 1 / 2; 1] 2).
  - reflexivity.
  - lia.
Defined.

(** ** Masked selection and gathering *)

Lemma select_length {A : Type} (mask : list bool) (a b : list A) :
  length mask = length a -> length a = length b ->
  length (select mask a b) = length b.
Proof.
  revert a b. induction mask as [| m mask IH]; intros [| u a] [| v b] Ha Hb;
    simpl in *; try discriminate; try reflexivity.
  f_equal. apply IH; congruence.
Qed.

Lemma select_nth_error {A : Type} (mask : list bool) (a b : list A) (j : nat)
  (m : bool) (u v : A) :
  nth_error mask j = Some m -> nth_error a j = Some u -> nth_error b j = Some v ->
  nth_error (select mask a b) j = Some (if m then u else v).
Proof.
  revert a b j. induction mask as [| m0 mask IH]; intros [| u0 a] [| v0 b] [| j];
    simpl; intros Hm Hu Hv; try discriminate.
  - now inversion Hm; inversion Hu; inversion Hv.
  - now apply IH.
Qed.

Lemma select_In {A : Type} (mask : list bool) (a b : list A) (w : A) :
  In w (select mask a b) ->
  exists j m u v,
    nth_error mask j = Some m /\ nth_error a j = Some u /\ nth_error b j = Some v
    /\ w = (if m then u else v).
Proof.
  revert a b. induction mask as [| m0 mask IH]; intros [| u0 a] [| v0 b] H;
    simpl in H; try contradiction.
  destruct H as [<- | H].
  - now exists O, m0, u0, v0.
  - destruct (IH _ _ H) as (j & m & u & v & Hm & Hu & Hv & ->).
    now exists (S j), m, u, v.
Qed.

Lemma index_In {A : Type} (a0 : A) (a : list A) (i : nat) :
  In (index a0 (a0 :: a) i) (a0 :: a).
Proof. unfold index. apply nth_In. simpl. lia. Qed.

Lemma gather_length {A : Type} (a : list A) (indices : list nat) :
  a <> [] -> length (gather a indices) = length indices.
Proof. destruct a; [congruence | intros _; apply length_map]. Qed.

Lemma gather_In {A : Type} (a : list A) (indices : list nat) (w : A) :
  In w (gather a indices) -> In w a.
Proof.
  destruct a as [| a0 a]; [easy |]. unfold gather. intro H.
  apply in_map_iff in H. destruct H as (i & <- & _). apply index_In.
Qed.

Lemma gather_nth_error {A : Type} (a : list A) (indices : list nat) (j : nat) (w : A) :
  nth_error (gather a indices) j = Some w ->
  exists i d, nth_error indices j = Some i /\ w = index d a i.
Proof.
  destruct a as [| a0 a]; unfold gather.
  - now destruct j.
  - intro H. rewrite nth_error_map in H.
    destruct (nth_error indices j) as [i |]; [| discriminate].
    inversion H. now exists i, a0.
Qed.

(** ** Validity repair *)

Lemma bool_mask_id (l : list bool) :
  map (fun v : bool => if v then true else false) l = l.
Proof. induction l as [| [|] l IH]; simpl; now rewrite ?IH. Qed.

Lemma gather_same_length {A : Type} (a : list A) (indices : list nat) :
  length indices = length a -> length (gather a indices) = length a.
Proof.
  destruct a as [| a0 a]; [reflexivity |].
  intro H. unfold gather. now rewrite length_map.
Qed.

Lemma index_nth {A : Type} (d d' : A) (a : list A) (i : nat) :
  (i < length a)%nat -> index d a i = nth i a d'.
Proof.
  intro H. rewrite index_in_range by exact H. now apply nth_indep.
Qed.

Lemma nth_mask_true {A : Type} (f : A -> bool) (a : list A) (i : nat) (d : A) :
  nth i (map f a) false = true -> (i < length a)%nat /\ f (nth i a d) = true.
Proof.
  revert i. induction a as [| u a IH]; intros [| i]; simpl; intro H;
    try discriminate.
  - split; [lia | exact H].
  - destruct (IH _ H). split; [lia | assumption].
Qed.

Lemma valid_samples_length (point : list Point) :
  length (valid_samples point) = length point.
Proof. apply length_map. Qed.

(** The repair always returns: a batch of the same size, whose particle [j] is
    particle [j] of the input when that one is valid, and the particle at
    the index drawn for [j] otherwise. *)
Lemma replace_invalid_samples_returns {RT : JaxRuntime} (point : list Point)
  (key : PRNGKey) :
  let indices := choice key (valid_samples point) (length point) in
  exists out,
    replace_invalid_samples_with_valid_ones point key = Ok out
    /\ length out = length point
    /\ forall j w, nth_error out j = Some w ->
         exists u i,
           nth_error point j = Some u /\ nth_error indices j = Some i
           /\ w = (if valid_sample u then u else index u point i).
Proof.
  intro indices. unfold replace_invalid_samples_with_valid_ones. cbv zeta.
  rewrite bool_mask_id, valid_samples_length. fold indices.
  assert (Hi : length indices = length point) by apply choice_length.
  assert (Hg : length (gather point indices) = length point)
    by now apply gather_same_length.
  unfold broadcasted_where.
  rewrite valid_samples_length, Hg, Nat.eqb_refl. simpl andb.
  eexists. split; [reflexivity |]. split.
  - rewrite select_length;
      [exact Hg | apply valid_samples_length | now rewrite Hg].
  - intros j w Hw.
    assert (Hj : (j < length point)%nat).
    { assert (Hs : nth_error (select (valid_samples point) point
                                 (gather point indices)) j <> None)
        by congruence.
      apply nth_error_Some in Hs.
      rewrite select_length in Hs;
        [lia | apply valid_samples_length | now rewrite Hg]. }
    destruct (nth_error point j) as [u |] eqn:Hu;
      [| apply nth_error_None in Hu; lia].
    destruct (nth_error (gather point indices) j) as [v |] eqn:Hv;
      [| apply nth_error_None in Hv; lia].
    destruct (gather_nth_error _ _ _ _ Hv) as (i & d & Hij & ->).
    erewrite select_nth_error in Hw;
      [| unfold valid_samples; rewrite nth_error_map, Hu; reflexivity
       | exact Hu | exact Hv].
    inversion Hw. exists u, i. repeat split; [assumption |].
    destruct (valid_sample u); [reflexivity |].
    destruct (Nat.lt_ge_cases i (length point)).
    + now rewrite !(index_nth _ u) by assumption.
    + unfold index. rewrite !Nat.min_r by lia. apply nth_indep. lia.
Qed.

Lemma replace_invalid_samples_In {RT : JaxRuntime} (point out : list Point)
  (key : PRNGKey) (w : Point) :
  replace_invalid_samples_with_valid_ones point key = Ok out ->
  In w out -> In w point.
Proof.
  intros Hout Hw.
  destruct (replace_invalid_samples_returns point key) as (out' & Hout' & _ & Hnth).
  rewrite Hout in Hout'. inversion Hout'. subst out'.
  apply In_nth_error in Hw. destruct Hw as [j Hj].
  destruct (Hnth _ _ Hj) as (u & i & Hu & _ & ->).
  apply nth_error_In in Hu as Hin.
  destruct (valid_sample u); [assumption |].
  destruct point as [| a0 point]; [easy |].
  unfold index. apply nth_In. simpl. lia.
Qed.

Lemma existsb_valid_nth (point : list Point) (k : nat) (pv : Point) :
  nth_error point k = Some pv -> valid_sample pv = true ->
  existsb (fun b => b) (valid_samples point) = true.
Proof.
  intros Hk Hv. apply existsb_exists. exists true. split; [| reflexivity].
  unfold valid_samples. rewrite <- Hv. apply in_map.
  now apply nth_error_In in Hk.
Qed.

(** A drawn index points at a valid particle as soon as the batch has one. *)
Lemma drawn_index_valid {RT : JaxRuntime} (point : list Point) (key : PRNGKey)
  (i : nat) (d : Point) :
  existsb (fun b => b) (valid_samples point) = true ->
  In i (choice key (valid_samples point) (length point)) ->
  (i < length point)%nat /\ valid_sample (nth i point d) = true.
Proof.
  intros Hex Hi. apply (nth_mask_true valid_sample point i d).
  exact (choice_support key _ _ i Hex Hi).
Qed.

(** C6: in a batch with exactly one valid particle, every particle of the
    repaired batch is that particle, with its whole state; in a batch with no
    valid particle nothing is repaired: no particle of the result is valid. *)
Theorem replace_invalid_samples_single_valid {RT : JaxRuntime}
  (point : list Point) (key : PRNGKey) :
  (forall (k : nat) (pv : Point),
     nth_error point k = Some pv ->
     valid_sample pv = true ->
     (forall j pt, nth_error point j = Some pt -> valid_sample pt = true -> j = k) ->
     exists out,
       replace_invalid_samples_with_valid_ones point key = Ok out
       /\ length out = length point
       /\ Forall (fun pt => pt = pv) out)
  /\ (existsb valid_sample point = false ->
      forall out,
        replace_invalid_samples_with_valid_ones point key = Ok out ->
        Forall (fun pt => valid_sample pt = false) out).
Proof.
  split.
  - intros k pv Hk Hv Huniq.
    destruct (replace_invalid_samples_returns point key) as (out & Hout & Hlen & Hnth).
    exists out. repeat split; try assumption.
    apply Forall_forall. intros w Hw.
    apply In_nth_error in Hw. destruct Hw as [j Hj].
    destruct (Hnth _ _ Hj) as (u & i & Hu & Hi & ->).
    destruct (valid_sample u) eqn:Hvu.
    + rewrite (Huniq _ _ Hu Hvu) in Hu. congruence.
    + apply nth_error_In in Hi.
      destruct (drawn_index_valid point key i u
                  (existsb_valid_nth point k pv Hk Hv) Hi) as [Hlt Hvi].
      rewrite index_in_range by assumption.
      assert (Hik : i = k).
      { apply (Huniq i (nth i point u)); [| exact Hvi].
        now apply nth_error_nth'. }
      subst i. now apply nth_error_nth.
  - intros Hnone out Hout. apply Forall_forall. intros w Hw.
    apply (replace_invalid_samples_In _ _ _ _ Hout) in Hw.
    destruct (valid_sample w) eqn:E; [| reflexivity].
    assert (existsb valid_sample point = true)
      by (apply existsb_exists; now exists w).
    congruence.
Qed.

Lemma replace_invalid_samples_single_valid_witness :
  let pv := {| x := origin; log_q := Fin 1; log_p := Fin 2; grad := None |} in
  let batch :=
    [ {| x := origin; log_q := NaN; log_p := Fin 0; grad := None |};
      pv;
      {| x := [Fin 0; PInf]; log_q := Fin 0; log_p := Fin 0; grad := None |} ] in
  exists out,
    @replace_invalid_samples_with_valid_ones det_runtime batch O = Ok out
    /\ length out = length batch
    /\ Forall (fun pt => pt = pv) out.
Proof.
  intros pv batch.
  apply (proj1 (@replace_invalid_samples_single_valid det_runtime batch O) 1%nat pv).
  - reflexivity.
  - reflexivity.
  - intros [| [| [| j]]] pt Hj Hv; simpl in Hj; try reflexivity.
    + inversion Hj. subst pt. discriminate Hv.
    + inversion Hj. subst pt. discriminate Hv.
    + now destruct j.
Defined.

(** ** The inner transition *)

Lemma vadd_same_length (a b : list float) :
  length a = length b ->
  vadd a b = Ok (map (fun ab => fadd (fst ab) (snd ab)) (combine a b)).
Proof. intro H. unfold vadd. now rewrite H, Nat.eqb_refl. Qed.

Lemma nth_error_combine_map (a b : list float) (j : nat) (u v : float) :
  nth_error a j = Some u -> nth_error b j = Some v ->
  nth_error (map (fun ab => fadd (fst ab) (snd ab)) (combine a b)) j
  = Some (fadd u v).
Proof.
  revert b j. induction a as [| u0 a IH]; intros [| v0 b] [| j]; simpl;
    intros Hu Hv; try discriminate.
  - now inversion Hu; inversion Hv.
  - now apply IH.
Qed.

Lemma vadd_nth_error (a b c : list float) (j : nat) (u v : float) :
  length a = length b -> vadd a b = Ok c ->
  nth_error a j = Some u -> nth_error b j = Some v ->
  nth_error c j = Some (fadd u v).
Proof.
  intros Hlen Hc Hu Hv. rewrite vadd_same_length in Hc by exact Hlen.
  inversion Hc. now apply nth_error_combine_map.
Qed.

Lemma vadd_length (a b c : list float) :
  length a = length b -> vadd a b = Ok c -> length c = length a.
Proof.
  intros Hlen Hc. rewrite vadd_same_length in Hc by exact Hlen.
  inversion Hc. rewrite length_map, length_combine. lia.
Qed.

Lemma log_weight_contribution_length (point : list Point) (i : nat)
  (betas : list R) (alpha : R) :
  length (log_weight_contribution point i betas alpha) = length point.
Proof. apply length_map. Qed.

Lemma broadcasted_where_inv {A : Type} (mask : list bool) (a b out : list A) :
  broadcasted_where mask a b = Ok out ->
  length mask = length a /\ length a = length b /\ out = select mask a b.
Proof.
  unfold broadcasted_where.
  destruct (Nat.eqb (length mask) (length a)) eqn:E1; [| discriminate].
  destruct (Nat.eqb (length a) (length b)) eqn:E2; [| discriminate].
  apply Nat.eqb_eq in E1, E2. simpl. intro H. now inversion H.
Qed.

(** What a successful inner transition has computed. *)
Lemma ais_inner_transition_inv {RT : JaxRuntime} (op : TransitionOperator)
  (point : list Point) (log_w : list float) (trans_op_state : TState op)
  (betas : list R) (i : nat) (log_q_fn log_p_fn : LogProbFn) (alpha : R)
  (point' : list Point) (log_w' : list float) (state' : TState op) (info : Info op) :
  ais_inner_transition op point log_w trans_op_state betas i log_q_fn log_p_fn alpha
  = Ok ((point', log_w'), (state', info)) ->
  let stepped :=
    op_step op point trans_op_state (index 0 betas i) alpha log_q_fn log_p_fn in
  let new_point := fst (fst stepped) in
  length new_point = length point
  /\ point' = select (valid_samples new_point) new_point point
  /\ vadd log_w (log_weight_contribution point' i betas alpha) = Ok log_w'
  /\ state' = snd (fst stepped)
  /\ info = snd stepped.
Proof.
  unfold ais_inner_transition. cbv zeta.
  destruct (op_step op point trans_op_state (index 0 betas i) alpha
              log_q_fn log_p_fn) as [[new_point st] inf].
  simpl fst. simpl snd.
  destruct (broadcasted_where (valid_samples new_point) new_point point)
    as [sel |] eqn:Hsel; [| discriminate].
  rewrite bind_Ok.
  destruct (vadd log_w (log_weight_contribution sel i betas alpha))
    as [lw |] eqn:Hlw; [| discriminate].
  rewrite bind_Ok. intro H. inversion H. subst.
  apply broadcasted_where_inv in Hsel. destruct Hsel as (_ & Hlen & Hsel).
  now subst.
Qed.

(** C10: after a successful inner transition, a particle whose proposed state
    is invalid keeps its own previous state (no other particle of the batch is
    substituted), and its log-weight grows by the increment computed on that
    previous state. *)
Theorem ais_inner_transition_reverts {RT : JaxRuntime} (op : TransitionOperator)
  (point : list Point) (log_w : list float) (trans_op_state : TState op)
  (betas : list R) (i : nat) (log_q_fn log_p_fn : LogProbFn) (alpha : R)
  (point' : list Point) (log_w' : list float) (state' : TState op) (info : Info op) :
  length log_w = length point ->
  ais_inner_transition op point log_w trans_op_state betas i log_q_fn log_p_fn alpha
  = Ok ((point', log_w'), (state', info)) ->
  forall (j : nat) (old new : Point) (w : float),
    nth_error point j = Some old ->
    nth_error (fst (fst (op_step op point trans_op_state (index 0 betas i) alpha
                           log_q_fn log_p_fn))) j = Some new ->
    nth_error log_w j = Some w ->
    valid_sample new = false ->
    nth_error point' j = Some old
    /\ nth_error log_w' j
       = Some (fadd w (log_weight_contribution_point old i betas alpha)).
Proof.
  intros Hw Hrun j old new w Hold Hnew Hwj Hinvalid.
  apply ais_inner_transition_inv in Hrun. cbv zeta in Hrun.
  destruct Hrun as (Hlen & Hsel & Hadd & _ & _).
  assert (Hj : nth_error point' j = Some old).
  { rewrite Hsel.
    erewrite select_nth_error;
      [| unfold valid_samples; rewrite nth_error_map, Hnew; reflexivity
       | exact Hnew | exact Hold].
    now rewrite Hinvalid. }
  split; [exact Hj |].
  assert (Hlen' : length point' = length point).
  { rewrite Hsel. apply select_length; [apply valid_samples_length | exact Hlen]. }
  apply (vadd_nth_error log_w (log_weight_contribution point' i betas alpha));
    try assumption.
  - rewrite log_weight_contribution_length. congruence.
  - unfold log_weight_contribution. now rewrite nth_error_map, Hj.
Qed.

Lemma ais_inner_transition_reverts_witness :
  let old := {| x := origin; log_q := Fin 1; log_p := Fin 2; grad := None |} in
  let w' := fadd (Fin 5) (log_weight_contribution_point old 1 [0; 1 / 2; 1] 2) in
  @ais_inner_transition det_runtime nan_operator [old] [Fin 5] tt [0; 1 / 2; 1] 1
    flat_log_prob flat_log_prob 2 = Ok (([old], [w']), (tt, tt))
  /\ nth_error [old] 0 = Some old
  /\ nth_error [w'] 0 = Some w'.
Proof.
  intros old w'. split; [reflexivity |].
  apply (@ais_inner_transition_reverts det_runtime nan_operator
           [old] [Fin 5] tt [0; 1 / 2; 1] 1 flat_log_prob flat_log_prob 2
           [old] [w'] tt tt eq_refl eq_refl O old
           {| x := origin; log_q := Fin 1; log_p := NaN; grad := None |} (Fin 5));
    reflexivity.
Defined.

(** ** Resampling *)

Lemma fge_not_flt (a : float) (c : R) : fge_real a c = true -> flt_real a c = false.
Proof.
  destruct a; simpl; try easy.
  destruct (Rge_dec r c), (Rlt_dec r c); try easy. lra.
Qed.

(** C7: [optionally_resample] returns the samples and the log-weights as they
    are when the normalised effective sample size is at or above the
    threshold; below it, it returns the resampled batch and sets every
    log-weight to the log of [1/N] of the total mass. Either way the whole
    batch is treated alike: the decision is one scalar test. *)
Theorem optionally_resample_spec {RT : JaxRuntime} {A : Type} (key : PRNGKey)
  (log_weights : list float) (samples : list A) (resample_threshold : R) :
  let N := length log_weights in
  let log_ess := log_effective_sample_size log_weights in
  let uniform := flog (fscale (/ INR N) (fsum (map fexp log_weights))) in
  let kept := (samples, log_weights, log_ess) in
  let resampled :=
    (snd (simple_resampling key log_weights samples), repeat uniform N, log_ess) in
  (fge_real (normalized_ess log_weights) resample_threshold = true ->
   optionally_resample key log_weights samples resample_threshold = kept)
  /\ (flt_real (normalized_ess log_weights) resample_threshold = true ->
      optionally_resample key log_weights samples resample_threshold = resampled)
  /\ (optionally_resample key log_weights samples resample_threshold = kept
      \/ optionally_resample key log_weights samples resample_threshold = resampled).
Proof.
  cbv zeta. unfold optionally_resample. repeat split.
  - intro H. now rewrite (fge_not_flt _ _ H).
  - intro H. now rewrite H.
  - destruct (flt_real _ _); [now right | now left].
Qed.

Lemma optionally_resample_spec_witness :
  @optionally_resample det_runtime nat O [Fin 0; Fin 0] [7; 9]%nat (1 / 2)
  = ([7; 9]%nat, [Fin 0; Fin 0], log_effective_sample_size [Fin 0; Fin 0]).
Proof.
  apply (proj1 (@optionally_resample_spec det_runtime nat O [Fin 0; Fin 0]
                  [7; 9]%nat (1 / 2))).
  unfold normalized_ess, log_effective_sample_size, logsumexp, fsum. simpl.
  rewrite exp_0.
  destruct (total_order_T (0 + 1 + 1) 0) as [[H | H] | H]; try lra.
  replace (2 * 0) with 0 by ring. rewrite exp_0.
  destruct (total_order_T (0 + 1 + 1) 0) as [[H' | H'] | H']; try lra.
  simpl. destruct (Rge_dec _ _) as [Hge | Hge]; [reflexivity |].
  exfalso. apply Hge.
  replace (2 * ln (0 + 1 + 1) + - ln (0 + 1 + 1)) with (ln 2)
    by (replace (0 + 1 + 1) with 2 by ring; ring).
  rewrite exp_ln by lra. lra.
Defined.

(** ** The forward pass: assertions *)

Lemma assert_rank_inv (a : ndarray) (r : nat) :
  assert_rank a r = Ok tt -> rank a = r.
Proof.
  unfold assert_rank. destruct (Nat.eqb (rank a) r) eqn:E; [| discriminate].
  intros _. now apply Nat.eqb_eq.
Qed.

Lemma start_of_chain_inv {RT : JaxRuntime} (op : TransitionOperator)
  (x0 : ndarray) (smc_state : SMCState op) (log_q_fn log_p_fn : LogProbFn)
  (point0 : list Point) (key0 : PRNGKey) :
  start_of_chain op x0 smc_state log_q_fn log_p_fn = Ok (point0, key0) ->
  rank x0 = 2%nat
  /\ key0 = fst (split (key smc_state))
  /\ replace_invalid_samples_with_valid_ones
       (map (create_point log_q_fn log_p_fn (uses_grad op)) (rows x0)) key0
     = Ok point0.
Proof.
  unfold start_of_chain.
  destruct (assert_rank x0 2) as [[] |] eqn:Hr; [| discriminate].
  rewrite bind_Ok. cbv zeta. destruct (split (key smc_state)) as [k sk].
  destruct (replace_invalid_samples_with_valid_ones _ k) as [p |] eqn:Hp;
    [| discriminate].
  rewrite bind_Ok. intro H. inversion H. subst.
  split; [now apply assert_rank_inv | now split].
Qed.

(** The stages a successful forward pass has gone through. *)
Lemma step_inv {RT : JaxRuntime} (op : TransitionOperator) (n : nat)
  (betas : list R) (alpha : R) (use_resampling : bool) (threshold : R)
  (x0 : ndarray) (smc_state : SMCState op) (log_q_fn log_p_fn : LogProbFn)
  (point : list Point) (log_w : list float) (smc_state' : SMCState op)
  (infos : list (option float * Info op)) :
  step op n betas alpha use_resampling threshold x0 smc_state log_q_fn log_p_fn
  = Ok (point, log_w, smc_state', infos) ->
  exists point0 key0 xs ys,
    start_of_chain op x0 smc_state log_q_fn log_p_fn = Ok (point0, key0)
    /\ per_step_inputs (snd (split key0)) (transition_operator_state smc_state) n
       = Ok xs
    /\ scan (body_fn op betas alpha use_resampling threshold log_q_fn log_p_fn)
         (point0, log_weight_contribution point0 0 betas alpha) xs
       = Ok ((point, log_w), ys)
    /\ assert_trees_all_equal_structs op (transition_operator_state smc_state)
         (map fst ys) = Ok tt
    /\ smc_state' = mkSMCState op (map fst ys) (fst (split key0))
    /\ infos = map snd ys.
Proof.
  unfold step.
  destruct (start_of_chain op x0 smc_state log_q_fn log_p_fn)
    as [[point0 key0] |] eqn:Hstart; [| discriminate].
  rewrite bind_Ok. cbv zeta. destruct (split key0) as [k sk] eqn:Hsplit.
  destruct (per_step_inputs sk (transition_operator_state smc_state) n)
    as [xs |] eqn:Hxs; [| discriminate].
  rewrite bind_Ok.
  destruct (scan _ _ xs) as [[[pt lw] ys] |] eqn:Hscan; [| discriminate].
  rewrite bind_Ok.
  destruct (assert_trees_all_equal_structs op _ (map fst ys)) as [[] |] eqn:Ha;
    [| discriminate].
  rewrite bind_Ok. intro H. inversion H. subst.
  exists point0, key0, xs, ys. rewrite Hsplit. simpl.
  repeat split; assumption || reflexivity.
Qed.

(** C9: a forward pass on an [x0] that is not of rank 2 fails with an
    assertion error, whatever the sampler, state and densities are; and a
    forward pass whose scan returns per-stage operator states of another
    structure than the input states fails with an assertion error too, so that
    a pass that returns has kept the structure. *)
Theorem step_assertions {RT : JaxRuntime} (op : TransitionOperator) (n : nat)
  (betas : list R) (alpha : R) (use_resampling : bool) (threshold : R)
  (x0 : ndarray) (smc_state : SMCState op) (log_q_fn log_p_fn : LogProbFn) :
  let run :=
    step op n betas alpha use_resampling threshold x0 smc_state log_q_fn log_p_fn in
  (rank x0 <> 2%nat -> run = Err AssertionError)
  /\ (forall point0 key0 xs carry ys,
        start_of_chain op x0 smc_state log_q_fn log_p_fn = Ok (point0, key0) ->
        per_step_inputs (snd (split key0)) (transition_operator_state smc_state) n
        = Ok xs ->
        scan (body_fn op betas alpha use_resampling threshold log_q_fn log_p_fn)
          (point0, log_weight_contribution point0 0 betas alpha) xs
        = Ok (carry, ys) ->
        map (structure op) (map fst ys)
        <> map (structure op) (transition_operator_state smc_state) ->
        run = Err AssertionError)
  /\ (forall point log_w smc_state' infos,
        run = Ok (point, log_w, smc_state', infos) ->
        map (structure op) (transition_operator_state smc_state')
        = map (structure op) (transition_operator_state smc_state)).
Proof.
  cbv zeta. repeat split.
  - intro Hrank. unfold step, start_of_chain, assert_rank.
    apply Nat.eqb_neq in Hrank. now rewrite Hrank.
  - intros point0 key0 xs [pt lw] ys Hstart Hxs Hscan Hdiff.
    unfold step. rewrite Hstart, bind_Ok. cbv zeta.
    destruct (split key0) as [k sk]. simpl snd in Hxs.
    rewrite Hxs, bind_Ok, Hscan, bind_Ok.
    unfold assert_trees_all_equal_structs.
    destruct (list_eq_dec _ _ _) as [E | E]; [| reflexivity].
    now symmetry in E.
  - intros point log_w smc_state' infos Hrun.
    apply step_inv in Hrun.
    destruct Hrun as (point0 & key0 & xs & ys & _ & _ & _ & Ha & -> & _).
    unfold assert_trees_all_equal_structs in Ha. simpl.
    destruct (list_eq_dec _ _ _) as [E | E]; [now symmetry | discriminate].
Qed.

Lemma step_assertions_witness :
  @step det_runtime idle_operator 1 [0; 1 / 2; 1] 2 false (3 / 10)
    {| shape := [4]%nat; data := [Fin 0; Fin 0; Fin 0; Fin 0] |}
    (mkSMCState idle_operator [tt] O) flat_log_prob flat_log_prob
  = Err AssertionError
  /\ @step det_runtime restructuring_operator 1 [0; 1 / 2; 1] 2 false (3 / 10)
       x0_example (mkSMCState restructuring_operator [O] O)
       flat_log_prob flat_log_prob
     = Err AssertionError.
Proof.
  split.
  - apply (proj1 (@step_assertions det_runtime idle_operator 1 [0; 1 / 2; 1] 2
                    false (3 / 10)
                    {| shape := [4]%nat; data := [Fin 0; Fin 0; Fin 0; Fin 0] |}
                    (mkSMCState idle_operator [tt] O) flat_log_prob flat_log_prob)).
    discriminate.
  - eapply (proj1 (proj2 (@step_assertions det_runtime restructuring_operator 1
                            [0; 1 / 2; 1] 2 false (3 / 10) x0_example
                            (mkSMCState restructuring_operator [O] O)
                            flat_log_prob flat_log_prob))).
    + reflexivity.
    + reflexivity.
    + reflexivity.
    + discriminate.
Defined.

(** ** The forward pass: only valid points are weighted *)

(** A point the spec calls valid. *)
Definition finite_point (pt : Point) : Prop :=
  isfinite (log_q pt) = true
  /\ isfinite (log_p pt) = true
  /\ Forall (fun v => isfinite v = true) (x pt).

Lemma valid_sample_finite (pt : Point) :
  valid_sample pt = true <-> finite_point pt.
Proof.
  unfold valid_sample, finite_point.
  rewrite !andb_true_iff, forallb_forall, Forall_forall. tauto.
Qed.

Lemma existsb_valid_samples (point : list Point) :
  existsb (fun b => b) (valid_samples point) = existsb valid_sample point.
Proof. induction point as [| pt point IH]; simpl; now rewrite ?IH. Qed.

(** With a valid particle in the batch, the repair leaves only valid ones. *)
Lemma replace_invalid_samples_all_valid {RT : JaxRuntime} (point out : list Point)
  (key : PRNGKey) :
  existsb valid_sample point = true ->
  replace_invalid_samples_with_valid_ones point key = Ok out ->
  Forall (fun pt => valid_sample pt = true) out.
Proof.
  intros Hex Hout.
  destruct (replace_invalid_samples_returns point key) as (out' & Hout' & _ & Hnth).
  rewrite Hout in Hout'. inversion Hout'. subst out'.
  apply Forall_forall. intros w Hw.
  apply In_nth_error in Hw. destruct Hw as [j Hj].
  destruct (Hnth _ _ Hj) as (u & i & _ & Hi & ->).
  destruct (valid_sample u) eqn:Hu; [exact Hu |].
  apply nth_error_In in Hi. rewrite <- existsb_valid_samples in Hex.
  destruct (drawn_index_valid point key i u Hex Hi) as [Hlt Hv].
  now rewrite index_in_range.
Qed.

Lemma optionally_resample_In {RT : JaxRuntime} {A : Type} (key : PRNGKey)
  (log_weights : list float) (samples : list A) (threshold : R) (w : A) :
  In w (fst (fst (optionally_resample key log_weights samples threshold))) ->
  In w samples.
Proof.
  unfold optionally_resample. destruct (flt_real _ _); simpl; [| easy].
  apply gather_In.
Qed.

Lemma select_valid (new old : list Point) :
  Forall (fun pt => valid_sample pt = true) old ->
  Forall (fun pt => valid_sample pt = true) (select (valid_samples new) new old).
Proof.
  intro Hold. apply Forall_forall. intros w Hw.
  apply select_In in Hw. destruct Hw as (j & m & u & v & Hm & Hu & Hv & ->).
  unfold valid_samples in Hm. rewrite nth_error_map, Hu in Hm.
  inversion Hm. destruct (valid_sample u) eqn:E; [exact E |].
  rewrite Forall_forall in Hold. apply Hold.
  now apply nth_error_In in Hv.
Qed.

Lemma body_fn_inv {RT : JaxRuntime} (op : TransitionOperator) (betas : list R)
  (alpha : R) (use_resampling : bool) (threshold : R)
  (log_q_fn log_p_fn : LogProbFn) (point : list Point) (log_w : list float)
  (k : PRNGKey) (ts : TState op) (i : nat)
  (carry' : list Point * list float)
  (y : TState op * (option float * Info op)) :
  body_fn op betas alpha use_resampling threshold log_q_fn log_p_fn
    (point, log_w) (k, ts, i) = Ok (carry', y) ->
  let before :=
    if use_resampling then fst (optionally_resample k log_w point threshold)
    else (point, log_w) in
  ais_inner_transition op (fst before) (snd before) ts betas i
    log_q_fn log_p_fn alpha
  = Ok (carry', (fst y, snd (snd y))).
Proof.
  unfold body_fn. cbv zeta.
  destruct use_resampling.
  - destruct (optionally_resample k log_w point threshold) as [[pt lw] ess].
    simpl fst. simpl snd.
    destruct (ais_inner_transition op pt lw ts betas i log_q_fn log_p_fn alpha)
      as [[c [s inf]] |]; [| discriminate].
    rewrite bind_Ok. intro H. now inversion H.
  - simpl fst. simpl snd.
    destruct (ais_inner_transition op point log_w ts betas i log_q_fn log_p_fn alpha)
      as [[c [s inf]] |]; [| discriminate].
    rewrite bind_Ok. intro H. now inversion H.
Qed.

Lemma body_fn_valid {RT : JaxRuntime} (op : TransitionOperator) (betas : list R)
  (alpha : R) (use_resampling : bool) (threshold : R)
  (log_q_fn log_p_fn : LogProbFn)
  (carry : list Point * list float) (xs : PRNGKey * TState op * nat)
  (carry' : list Point * list float)
  (y : TState op * (option float * Info op)) :
  Forall (fun pt => valid_sample pt = true) (fst carry) ->
  body_fn op betas alpha use_resampling threshold log_q_fn log_p_fn carry xs
  = Ok (carry', y) ->
  Forall (fun pt => valid_sample pt = true) (fst carry').
Proof.
  destruct carry as [point log_w], xs as [[k ts] i], carry' as [point' log_w'].
  intros Hvalid Hbody. apply body_fn_inv in Hbody. cbv zeta in Hbody.
  destruct y as [s [ess inf]].
  apply ais_inner_transition_inv in Hbody. cbv zeta in Hbody.
  destruct Hbody as (_ & -> & _). apply select_valid.
  destruct use_resampling; [| exact Hvalid].
  apply Forall_forall. intros w Hw. apply optionally_resample_In in Hw.
  simpl in Hvalid. rewrite Forall_forall in Hvalid. now apply Hvalid.
Qed.

Lemma scan_carries_invariant {C X Y : Type} (P : C -> Prop)
  (f : C -> X -> result (C * Y)) (xs : list X) :
  (forall c x0 c' y, P c -> f c x0 = Ok (c', y) -> P c') ->
  forall init cs, P init -> scan_carries f init xs = Ok cs -> Forall P cs.
Proof.
  intro Hstep. induction xs as [| x0 xs IH]; intros init cs Hinit; simpl.
  - intro H. inversion H. constructor.
  - destruct (f init x0) as [[c y] |] eqn:Hf; [| discriminate].
    rewrite bind_Ok.
    destruct (scan_carries f c xs) as [cs' |] eqn:Hcs; [| discriminate].
    rewrite bind_Ok. intro H. inversion H.
    assert (Hc : P c) by (eapply Hstep; eassumption).
    constructor; [exact Hc | now apply (IH c)].
Qed.

Lemma last_cons_default {C : Type} (c : C) (cs : list C) (d d' : C) :
  last (c :: cs) d = last (c :: cs) d'.
Proof.
  revert c. induction cs as [| c' cs IH]; intro c; [reflexivity |].
  change (last (c' :: cs) d = last (c' :: cs) d'). apply IH.
Qed.

Lemma last_cons_In {C : Type} (c : C) (cs : list C) (d : C) :
  In (last (c :: cs) d) (c :: cs).
Proof.
  revert c. induction cs as [| c' cs IH]; intro c; [now left |].
  right. apply (IH c').
Qed.

Lemma scan_carries_last {C X Y : Type} (f : C -> X -> result (C * Y))
  (xs : list X) :
  forall init c ys,
    scan f init xs = Ok (c, ys) ->
    exists cs, scan_carries f init xs = Ok cs /\ last cs init = c.
Proof.
  induction xs as [| x0 xs IH]; intros init c ys; simpl.
  - intro H. inversion H. now exists [].
  - destruct (f init x0) as [[c1 y] |] eqn:Hf; [| discriminate].
    rewrite !bind_Ok.
    destruct (scan f c1 xs) as [[c2 ys'] |] eqn:Hs; [| discriminate].
    rewrite bind_Ok. intro H. inversion H. subst.
    destruct (IH _ _ _ Hs) as (cs & -> & Hlast).
    rewrite bind_Ok. exists (c1 :: cs). split; [reflexivity |].
    destruct cs as [| c3 cs]; [exact Hlast |].
    change (last (c3 :: cs) init = c).
    now rewrite (last_cons_default c3 cs init c1).
Qed.

(** C4: when the initial batch has a valid particle, the forward pass only
    ever weights valid points: the repaired initial batch, on which the first
    increment is taken, and the batch carried out of every stage, on which
    that stage's increment is taken, consist of particles with finite
    [log_q], finite [log_p] and finite coordinates; so does the batch the
    pass returns. *)
Theorem step_weights_valid_points {RT : JaxRuntime} (op : TransitionOperator)
  (n : nat) (betas : list R) (alpha : R) (use_resampling : bool) (threshold : R)
  (x0 : ndarray) (smc_state : SMCState op) (log_q_fn log_p_fn : LogProbFn)
  (point0 : list Point) (key0 : PRNGKey) :
  existsb valid_sample
    (map (create_point log_q_fn log_p_fn (uses_grad op)) (rows x0)) = true ->
  start_of_chain op x0 smc_state log_q_fn log_p_fn = Ok (point0, key0) ->
  let body := body_fn op betas alpha use_resampling threshold log_q_fn log_p_fn in
  let log_w_init := log_weight_contribution point0 0 betas alpha in
  Forall finite_point point0
  /\ (forall xs carries,
        scan_carries body (point0, log_w_init) xs = Ok carries ->
        Forall (fun carry => Forall finite_point (fst carry)) carries)
  /\ (forall point log_w k ts i carry' y,
        body (point, log_w) (k, ts, i) = Ok (carry', y) ->
        exists log_w_before,
          vadd log_w_before (log_weight_contribution (fst carry') i betas alpha)
          = Ok (snd carry'))
  /\ (forall point log_w smc_state' infos,
        step op n betas alpha use_resampling threshold x0 smc_state
          log_q_fn log_p_fn = Ok (point, log_w, smc_state', infos) ->
        Forall finite_point point).
Proof.
  intros Hex Hstart body log_w_init.
  assert (Hfin : forall l, Forall (fun pt => valid_sample pt = true) l ->
                           Forall finite_point l).
  { intros l Hl. eapply Forall_impl; [| exact Hl].
    intros pt. apply valid_sample_finite. }
  assert (H0 : Forall (fun pt => valid_sample pt = true) point0).
  { apply start_of_chain_inv in Hstart. destruct Hstart as (_ & _ & Hrepair).
    eapply replace_invalid_samples_all_valid; eassumption. }
  assert (Hcarries : forall xs carries,
             scan_carries body (point0, log_w_init) xs = Ok carries ->
             Forall (fun carry => Forall (fun pt => valid_sample pt = true)
                                    (fst carry)) carries).
  { intros xs carries. apply scan_carries_invariant; [| exact H0].
    intros c x1 c' y. apply body_fn_valid. }
  repeat split.
  - now apply Hfin.
  - intros xs carries Hs. eapply Forall_impl; [| exact (Hcarries _ _ Hs)].
    intro c. apply Hfin.
  - intros point log_w k ts i [point' log_w'] [s [ess inf]] Hbody.
    apply body_fn_inv in Hbody. cbv zeta in Hbody.
    apply ais_inner_transition_inv in Hbody. cbv zeta in Hbody.
    destruct Hbody as (_ & _ & Hadd & _). eexists. exact Hadd.
  - intros point log_w smc_state' infos Hrun.
    apply step_inv in Hrun.
    destruct Hrun as (p0 & k0 & xs & ys & Hstart' & _ & Hscan & _).
    rewrite Hstart in Hstart'. inversion Hstart'. subst p0 k0.
    apply scan_carries_last in Hscan. destruct Hscan as (cs & Hcs & Hlast).
    apply Hfin. apply Hcarries in Hcs.
    destruct cs as [| c cs].
    + simpl in Hlast. inversion Hlast. now subst.
    + assert (Hin : In (point, log_w) (c :: cs))
        by (rewrite <- Hlast; apply last_cons_In).
      rewrite Forall_forall in Hcs. exact (Hcs _ Hin).
Qed.

(** A batch with one particle of non-finite base density, for the repair to
    act on. *)
Definition guarded_log_prob : LogProbFn :=
  fun position => match position with Fin _ :: _ => Fin 0 | _ => NaN end.

Definition x0_with_nan : ndarray :=
  {| shape := [2; 2]%nat; data := [Fin 0; Fin 0; NaN; Fin 0] |}.

Lemma step_weights_valid_points_witness :
  let point0 :=
    [ {| x := origin; log_q := Fin 0; log_p := Fin 0; grad := None |};
      {| x := origin; log_q := Fin 0; log_p := Fin 0; grad := None |} ] in
  Forall finite_point point0
  /\ forall point log_w smc_state' infos,
       @step det_runtime nan_operator 1 [0; 1 / 2; 1] 2 true (3 / 10)
         x0_with_nan (mkSMCState nan_operator [tt] O)
         guarded_log_prob flat_log_prob
       = Ok (point, log_w, smc_state', infos) ->
       Forall finite_point point.
Proof.
  intro point0.
  pose proof (@step_weights_valid_points det_runtime nan_operator 1
                [0; 1 / 2; 1] 2 true (3 / 10) x0_with_nan
                (mkSMCState nan_operator [tt] O) guarded_log_prob flat_log_prob
                point0 1%nat eq_refl eq_refl) as H.
  split; [exact (proj1 H) | exact (proj2 (proj2 (proj2 H)))].
Defined.

(** ** The forward pass without resampling: the increments telescope *)

(** The operator leaves the stored densities of every particle as they are. *)
Definition preserves_densities {RT : JaxRuntime} (op : TransitionOperator) : Prop :=
  forall point ts beta alpha log_q_fn log_p_fn,
    let new_point := fst (fst (op_step op point ts beta alpha log_q_fn log_p_fn)) in
    map log_q new_point = map log_q point /\ map log_p new_point = map log_p point.

(** The log-weight of a particle after stage [k], when its densities stay. *)
Fixpoint accumulated (pt : Point) (betas : list R) (alpha : R) (k : nat) : float :=
  match k with
  | O => log_weight_contribution_point pt 0 betas alpha
  | S k' =>
      fadd (accumulated pt betas alpha k')
           (log_weight_contribution_point pt (S k') betas alpha)
  end.

Lemma select_map_eq {A B : Type} (g : A -> B) (mask : list bool) (a b : list A) :
  length mask = length a -> map g a = map g b ->
  map g (select mask a b) = map g b.
Proof.
  revert a b. induction mask as [| m mask IH]; intros [| u a] [| v b] Hlen Hg;
    simpl in *; try discriminate; try reflexivity.
  inversion Hg as [[Hhead Htail]].
  rewrite (IH a b) by congruence.
  destruct m; congruence.
Qed.

Lemma log_weight_contribution_ext (a b : list Point) (i : nat) (betas : list R)
  (alpha : R) (f : Point -> float) :
  map log_q a = map log_q b -> map log_p a = map log_p b ->
  (forall pt, f pt = log_weight_contribution_point pt i betas alpha) ->
  log_weight_contribution a i betas alpha = map f b.
Proof.
  intros Hq Hp Hf. revert b Hq Hp.
  induction a as [| u a IH]; intros [| v b] Hq Hp; simpl in *;
    try discriminate; try reflexivity.
  inversion Hq. inversion Hp. f_equal; [| now apply IH].
  rewrite Hf. unfold log_weight_contribution_point. congruence.
Qed.

Lemma vadd_map {A : Type} (f g : A -> float) (l : list A) :
  vadd (map f l) (map g l) = Ok (map (fun a => fadd (f a) (g a)) l).
Proof.
  rewrite vadd_same_length by now rewrite !length_map.
  f_equal. induction l as [| a l IH]; simpl; now rewrite ?IH.
Qed.

Section Telescope.

Context {RT : JaxRuntime}.
Variable op : TransitionOperator.
Variable betas : list R.
Variable alpha : R.
Variable threshold : R.
Variables log_q_fn log_p_fn : LogProbFn.
Variable point0 : list Point.
Hypothesis Hpres : preserves_densities op.

(** The carry after stage [k] of a pass without resampling. *)
Definition after_stage (k : nat) (carry : list Point * list float) : Prop :=
  map log_q (fst carry) = map log_q point0
  /\ map log_p (fst carry) = map log_p point0
  /\ snd carry = map (fun pt => accumulated pt betas alpha k) point0.

Lemma body_fn_after_stage (k : nat) (carry carry' : list Point * list float)
  (key1 : PRNGKey) (ts : TState op) (y : TState op * (option float * Info op)) :
  after_stage k carry ->
  body_fn op betas alpha false threshold log_q_fn log_p_fn carry (key1, ts, S k)
  = Ok (carry', y) ->
  after_stage (S k) carry'.
Proof.
  destruct carry as [point log_w], carry' as [point' log_w'], y as [s [ess inf]].
  intros (Hq & Hp & Hw) Hbody. simpl in Hq, Hp, Hw.
  apply body_fn_inv in Hbody. cbv zeta in Hbody. simpl fst in Hbody.
  simpl snd in Hbody.
  apply ais_inner_transition_inv in Hbody. cbv zeta in Hbody.
  destruct Hbody as (Hlen & Hsel & Hadd & _).
  destruct (Hpres point ts (index 0 betas (S k)) alpha log_q_fn log_p_fn)
    as [Hnq Hnp].
  assert (Hq' : map log_q point' = map log_q point0).
  { rewrite Hsel, <- Hq. apply select_map_eq;
      [apply valid_samples_length | exact Hnq]. }
  assert (Hp' : map log_p point' = map log_p point0).
  { rewrite Hsel, <- Hp. apply select_map_eq;
      [apply valid_samples_length | exact Hnp]. }
  repeat split; try assumption. simpl snd.
  rewrite (log_weight_contribution_ext point' point0 (S k) betas alpha
             (fun pt => log_weight_contribution_point pt (S k) betas alpha)
             Hq' Hp' (fun _ => eq_refl)) in Hadd.
  rewrite Hw, vadd_map in Hadd. now inversion Hadd.
Qed.

Lemma scan_after_stage (xs : list (PRNGKey * TState op * nat)) :
  forall (k m : nat) (carry carry' : list Point * list float) ys,
    map snd xs = map (fun i => i + 1)%nat (seq k m) ->
    after_stage k carry ->
    scan (body_fn op betas alpha false threshold log_q_fn log_p_fn) carry xs
    = Ok (carry', ys) ->
    after_stage (k + m) carry'.
Proof.
  induction xs as [| [[key1 ts] i] xs IH]; intros k m carry carry' ys Hidx Hk.
  - destruct m; [| discriminate]. simpl. intro H. inversion H. subst.
    now rewrite Nat.add_0_r.
  - destruct m as [| m]; [discriminate |]. simpl in Hidx. inversion Hidx as [[Hi Hrest]].
    simpl scan.
    destruct (body_fn _ _ _ _ _ _ _ carry _) as [[c1 y1] |] eqn:Hbody;
      [| discriminate].
    rewrite bind_Ok.
    destruct (scan _ c1 xs) as [[c2 ys'] |] eqn:Hscan; [| discriminate].
    rewrite bind_Ok. intro H. inversion H. subst c2.
    replace (k + 1)%nat with (S k) in Hbody by lia.
    replace (k + S m)%nat with (S k + m)%nat by lia.
    eapply IH; [exact Hrest | | exact Hscan].
    eapply body_fn_after_stage; eassumption.
Qed.

End Telescope.

Lemma map_snd_combine {A B : Type} (a : list A) (b : list B) :
  length a = length b -> map snd (combine a b) = b.
Proof.
  revert b. induction a as [| u a IH]; intros [| v b] H; simpl in *;
    try discriminate; try reflexivity.
  f_equal. apply IH. congruence.
Qed.

Lemma per_step_inputs_indices {RT : JaxRuntime} {S : Type} (subkey : PRNGKey)
  (states : list S) (n : nat) (xs : list (PRNGKey * S * nat)) :
  per_step_inputs subkey states n = Ok xs ->
  map snd xs = map (fun i => i + 1)%nat (seq 0 n).
Proof.
  unfold per_step_inputs.
  destruct (Nat.eqb (length states) n) eqn:E; [| discriminate].
  apply Nat.eqb_eq in E. intro H. inversion H.
  apply map_snd_combine.
  rewrite length_combine, split_n_length, length_map, length_seq. lia.
Qed.

Lemma nth_last_of (l : list R) (m : nat) (d : R) :
  length l = S m -> nth m l d = last l d.
Proof.
  revert m. induction l as [| v l IH]; intros m H; [discriminate |].
  destruct l as [| v' l].
  - simpl in H. now inversion H.
  - destruct m as [| m]; [discriminate |].
    change (nth m (v' :: l) d = last (v' :: l) d). apply IH.
    simpl in *. lia.
Qed.

(** With finite densities the increments up to stage [k] sum to the
    difference between the levels [betas[k+1]] and [betas[0]]. *)
Lemma accumulated_finite (pt : Point) (betas : list R) (alpha q p : R) (k : nat) :
  log_q pt = Fin q -> log_p pt = Fin p ->
  accumulated pt betas alpha k
  = fsub (get_intermediate_log_prob (Fin q) (Fin p) (index 0 betas (k + 1)) alpha)
         (get_intermediate_log_prob (Fin q) (Fin p) (index 0 betas 0) alpha).
Proof.
  intros Hq Hp. induction k as [| k IH].
  - simpl. unfold log_weight_contribution_point. now rewrite Hq, Hp.
  - simpl accumulated. rewrite IH.
    unfold log_weight_contribution_point. rewrite Hq, Hp.
    replace (k + 1)%nat with (S k) by lia.
    rewrite !get_intermediate_log_prob_Fin. unfold fsub. simpl.
    f_equal. ring.
Qed.

Lemma fscale_zero_non_finite (a : float) : isfinite a = false -> fscale 0 a = NaN.
Proof.
  destruct a; simpl; intro H; try discriminate; try reflexivity;
    destruct (total_order_T 0 0) as [[H0 | H0] | H0]; try reflexivity; lra.
Qed.

Lemma fscale_non_finite (c : R) (a : float) :
  isfinite a = false -> isfinite (fscale c a) = false.
Proof.
  destruct a; simpl; intro H; try discriminate; try reflexivity;
    now destruct (total_order_T c 0) as [[H0 | H0] | H0].
Qed.

Lemma fadd_non_finite (a b : float) :
  isfinite a = false \/ isfinite b = false -> isfinite (fadd a b) = false.
Proof. destruct a, b; simpl; intros [H | H]; try discriminate; reflexivity. Qed.

Lemma fneg_non_finite (a : float) : isfinite a = false -> isfinite (fneg a) = false.
Proof. now destruct a. Qed.

(** At level 0 the intermediate log-density of a particle with a non-finite
    density is NaN. *)
Lemma get_intermediate_log_prob_0_non_finite (q p : float) (alpha : R) :
  isfinite q = false \/ isfinite p = false ->
  get_intermediate_log_prob q p 0 alpha = NaN.
Proof.
  intro H. unfold get_intermediate_log_prob.
  rewrite (fscale_zero_non_finite (fsub _ _)).
  - now destruct (fscale (1 - 0) q).
  - unfold fsub. apply fadd_non_finite. destruct H as [H | H].
    + right. now apply fneg_non_finite, fscale_non_finite.
    + left. now apply fscale_non_finite.
Qed.

Lemma fsub_NaN (a : float) : fsub a NaN = NaN.
Proof. now destruct a. Qed.

Lemma accumulated_non_finite (pt : Point) (betas : list R) (alpha : R) (k : nat) :
  index 0 betas 0 = 0 ->
  isfinite (log_q pt) = false \/ isfinite (log_p pt) = false ->
  accumulated pt betas alpha k = NaN.
Proof.
  intros H0 Hnf. induction k as [| k IH].
  - simpl. unfold log_weight_contribution_point. cbv zeta. rewrite H0.
    rewrite (get_intermediate_log_prob_0_non_finite _ _ alpha Hnf).
    apply fsub_NaN.
  - simpl. now rewrite IH.
Qed.

(** The telescoped sum, for a schedule that starts at 0. *)
Lemma accumulated_telescopes (pt : Point) (betas : list R) (alpha : R) (k : nat) :
  index 0 betas 0 = 0 ->
  accumulated pt betas alpha k
  = fsub (get_intermediate_log_prob (log_q pt) (log_p pt)
            (index 0 betas (k + 1)) alpha)
         (get_intermediate_log_prob (log_q pt) (log_p pt) 0 alpha).
Proof.
  intro H0.
  destruct (isfinite (log_q pt)) eqn:Hq; [destruct (isfinite (log_p pt)) eqn:Hp |].
  - destruct (isfinite_Fin _ Hq) as [q Eq], (isfinite_Fin _ Hp) as [p Ep].
    rewrite (accumulated_finite pt betas alpha q p k Eq Ep), Eq, Ep.
    now rewrite H0.
  - rewrite accumulated_non_finite by (try assumption; now right).
    rewrite (get_intermediate_log_prob_0_non_finite _ _ alpha) by now right.
    symmetry. apply fsub_NaN.
  - rewrite accumulated_non_finite by (try assumption; now left).
    rewrite (get_intermediate_log_prob_0_non_finite _ _ alpha) by now left.
    symmetry. apply fsub_NaN.
Qed.

(** On a schedule of [n + 2] levels from 0 to 1, a forward pass without
    resampling whose operator leaves the stored densities alone returns, for
    every particle, the log-density at level 1 minus the one at level 0, at
    the densities of the repaired initial particle. *)
Theorem step_weights_telescope {RT : JaxRuntime} (op : TransitionOperator)
  (n : nat) (betas : list R) (alpha threshold : R)
  (x0 : ndarray) (smc_state smc_state' : SMCState op)
  (log_q_fn log_p_fn : LogProbFn) (point0 point : list Point) (key0 : PRNGKey)
  (log_w : list float) (infos : list (option float * Info op)) :
  length betas = (n + 2)%nat -> nth 0 betas 0 = 0 -> last betas 0 = 1 ->
  preserves_densities op ->
  start_of_chain op x0 smc_state log_q_fn log_p_fn = Ok (point0, key0) ->
  step op n betas alpha false threshold x0 smc_state log_q_fn log_p_fn
  = Ok (point, log_w, smc_state', infos) ->
  log_w
  = map (fun pt =>
           fsub (get_intermediate_log_prob (log_q pt) (log_p pt) 1 alpha)
                (get_intermediate_log_prob (log_q pt) (log_p pt) 0 alpha))
        point0.
Proof.
  intros Hlen Hfirst Hlast Hpres Hstart Hrun.
  apply step_inv in Hrun.
  destruct Hrun as (p0 & k0 & xs & ys & Hstart' & Hxs & Hscan & _).
  rewrite Hstart in Hstart'. inversion Hstart'. subst p0 k0.
  apply per_step_inputs_indices in Hxs.
  assert (H0 : index 0 betas 0 = 0) by (rewrite index_in_range by lia; exact Hfirst).
  assert (H1 : index 0 betas (n + 1) = 1).
  { rewrite index_in_range by lia. rewrite <- Hlast.
    apply nth_last_of. lia. }
  assert (Hinit : after_stage betas alpha point0 0
                    (point0, log_weight_contribution point0 0 betas alpha))
    by (repeat split).
  pose proof (scan_after_stage op betas alpha threshold log_q_fn log_p_fn point0
                Hpres xs 0 n _ _ _ Hxs Hinit Hscan) as (_ & _ & Hw).
  simpl in Hw. rewrite Hw. apply map_ext. intro pt.
  now rewrite accumulated_telescopes, H1.
Qed.

(** ** The geometric schedule without intermediate distributions *)

Definition unit_log_prob : LogProbFn := fun _ => Fin 1.

Lemma build_betas_geometric_0 : build_betas 0 "geometric" = Ok [0; 1 / 100].
Proof.
  unfold build_betas. simpl String.eqb. cbv zeta.
  change (Z.quot (Z.of_nat 0) 4) with 0%Z.
  change (0 + 2)%Z with (Z.of_nat 0 + 2)%Z.
  rewrite linspace_seq, bind_Ok.
  unfold geomspace, linspace. simpl.
  rewrite interpolate_first, Rpower_10_log10 by lra. reflexivity.
Qed.

Lemma idle_operator_preserves_densities : preserves_densities idle_operator.
Proof. intros point ts beta alpha log_q_fn log_p_fn. now split. Qed.

(** C1 at [n_intermediate_distributions = 0] with geometric spacing: the
    schedule built is [[0; 0.01]], it does not reach 1, and a forward pass
    without resampling under an operator that moves nothing returns, for a
    particle with [log_q = 0] and [log_p = 1] and [alpha = 2], the log-weight
    [0.02], where the difference between the levels 1 and 0 is [2]. *)
Theorem step_geometric_no_intermediate :
  exists smc point smc_state',
    build_smc idle_operator 0 "geometric" 2 false (3 / 10) = Ok smc
    /\ smc_use_resampling smc = false
    /\ smc_betas smc = [0; 1 / 100]
    /\ preserves_densities (smc_transition_operator smc)
    /\ smc_step smc x0_example (smc_init smc O) flat_log_prob unit_log_prob
       = Ok (point, [Fin (2 / 100); Fin (2 / 100)], smc_state', [])
    /\ Forall (fun pt => log_q pt = Fin 0 /\ log_p pt = Fin 1) point
    /\ fsub (get_intermediate_log_prob (Fin 0) (Fin 1) 1 2)
            (get_intermediate_log_prob (Fin 0) (Fin 1) 0 2) = Fin 2
    /\ Fin (2 / 100) <> Fin 2.
Proof.
  unfold build_smc. rewrite build_betas_geometric_0, bind_Ok.
  eexists. eexists. eexists.
  split; [reflexivity |]. split; [reflexivity |]. split; [reflexivity |].
  split; [exact idle_operator_preserves_densities |]. split; [| split; [| split]].
  - cbn -[Rmult Rplus Rminus Rdiv Ropp Rinv IZR].
    match goal with
    | |- context [Fin ?e] => replace e with (2 / 100) by lra
    end.
    reflexivity.
  - repeat constructor.
  - rewrite !get_intermediate_log_prob_Fin. unfold fsub. simpl. f_equal. lra.
  - intro H. inversion H. lra.
Qed.

(** X1: for every sampler [build_smc] returns with at least one intermediate
    distribution, or with linear spacing, the increments of a pass without
    resampling telescope. *)
Corollary built_sampler_weights_telescope {RT : JaxRuntime}
  (op : TransitionOperator) (n : nat) (spacing_type : string) (betas : list R)
  (alpha threshold : R) (x0 : ndarray) (smc_state smc_state' : SMCState op)
  (log_q_fn log_p_fn : LogProbFn) (point0 point : list Point) (key0 : PRNGKey)
  (log_w : list float) (infos : list (option float * Info op)) :
  build_betas n spacing_type = Ok betas ->
  (1 <= n)%nat \/ spacing_type = "linear"%string ->
  preserves_densities op ->
  start_of_chain op x0 smc_state log_q_fn log_p_fn = Ok (point0, key0) ->
  step op n betas alpha false threshold x0 smc_state log_q_fn log_p_fn
  = Ok (point, log_w, smc_state', infos) ->
  log_w
  = map (fun pt =>
           fsub (get_intermediate_log_prob (log_q pt) (log_p pt) 1 alpha)
                (get_intermediate_log_prob (log_q pt) (log_p pt) 0 alpha))
        point0.
Proof.
  intros Hb Hn Hpres Hstart Hrun.
  assert (Hv : valid_schedule n betas).
  { assert (Hs : spacing_type = "linear"%string \/ spacing_type = "geometric"%string).
    { unfold build_betas in Hb.
      destruct (String.eqb_spec spacing_type "geometric"); [now right |].
      destruct (String.eqb_spec spacing_type "linear"); [now left | discriminate]. }
    destruct Hn as [Hn | ->].
    - destruct (build_betas_valid _ _ Hn Hs) as (b & Hb' & Hv). congruence.
    - rewrite build_betas_linear in Hb. inversion Hb. apply linear_schedule. }
  destruct Hv as (Hlen & Hfirst & Hlast & _).
  eapply step_weights_telescope; eassumption.
Qed.

Lemma built_sampler_weights_telescope_witness :
  let pt := {| x := origin; log_q := Fin 0; log_p := Fin 1; grad := None |} in
  exists betas point log_w smc_state' infos,
    build_betas 1 "linear" = Ok betas
    /\ @step det_runtime idle_operator 1 betas 2 false (3 / 10) x0_example
         (mkSMCState idle_operator [tt] O) flat_log_prob unit_log_prob
       = Ok (point, log_w, smc_state', infos)
    /\ log_w
       = map (fun ps =>
                fsub (get_intermediate_log_prob (log_q ps) (log_p ps) 1 2)
                     (get_intermediate_log_prob (log_q ps) (log_p ps) 0 2))
             [pt; pt].
Proof.
  intro pt. do 5 eexists.
  split; [apply build_betas_linear |].
  split; [reflexivity |].
  refine (@built_sampler_weights_telescope det_runtime idle_operator 1 "linear"
            _ 2 (3 / 10) x0_example (mkSMCState idle_operator [tt] O)
            _ flat_log_prob unit_log_prob [pt; pt] _ 1%nat _ _
            (build_betas_linear 1) (or_introl (le_n 1))
            idle_operator_preserves_densities eq_refl eq_refl).
Defined.

(** * Further properties of the sampler *)

(** ** Batch sizes along the forward pass *)

Lemma optionally_resample_lengths {RT : JaxRuntime} {A : Type} (k : PRNGKey)
  (log_weights : list float) (samples : list A) (threshold : R) :
  length log_weights = length samples ->
  length (fst (fst (optionally_resample k log_weights samples threshold)))
  = length samples
  /\ length (snd (fst (optionally_resample k log_weights samples threshold)))
     = length samples.
Proof.
  intro H. unfold optionally_resample. destruct (flt_real _ _); simpl.
  - split.
    + apply gather_same_length. now rewrite categorical_length.
    + now rewrite repeat_length.
  - now split.
Qed.

Lemma ais_inner_transition_lengths {RT : JaxRuntime} (op : TransitionOperator)
  (point : list Point) (log_w : list float) (ts : TState op) (betas : list R)
  (i : nat) (log_q_fn log_p_fn : LogProbFn) (alpha : R)
  (carry' : list Point * list float) (y : TState op * Info op) :
  length log_w = length point ->
  ais_inner_transition op point log_w ts betas i log_q_fn log_p_fn alpha
  = Ok (carry', y) ->
  length (fst carry') = length point /\ length (snd carry') = length point.
Proof.
  destruct carry' as [point' log_w'], y as [s inf]. intros Hw Hrun.
  apply ais_inner_transition_inv in Hrun. cbv zeta in Hrun.
  destruct Hrun as (Hlen & Hsel & Hadd & _).
  assert (Hp : length point' = length point).
  { rewrite Hsel. apply select_length; [apply valid_samples_length | exact Hlen]. }
  split; [exact Hp |]. simpl.
  assert (Hc : length log_w
               = length (log_weight_contribution point' i betas alpha))
    by (rewrite log_weight_contribution_length; congruence).
  rewrite (vadd_length _ _ _ Hc Hadd). exact Hw.
Qed.

Lemma body_fn_lengths {RT : JaxRuntime} (op : TransitionOperator) (betas : list R)
  (alpha : R) (use_resampling : bool) (threshold : R)
  (log_q_fn log_p_fn : LogProbFn)
  (carry : list Point * list float) (xs : PRNGKey * TState op * nat)
  (carry' : list Point * list float)
  (y : TState op * (option float * Info op)) :
  length (snd carry) = length (fst carry) ->
  body_fn op betas alpha use_resampling threshold log_q_fn log_p_fn carry xs
  = Ok (carry', y) ->
  length (fst carry') = length (fst carry)
  /\ length (snd carry') = length (fst carry').
Proof.
  destruct carry as [point log_w], xs as [[k ts] i]. simpl fst. simpl snd.
  intros Hw Hbody. apply body_fn_inv in Hbody. cbv zeta in Hbody.
  destruct use_resampling.
  - destruct (optionally_resample_lengths k log_w point threshold Hw) as [H1 H2].
    apply ais_inner_transition_lengths in Hbody; [| congruence].
    destruct Hbody as [Hp Hl]. split; congruence.
  - simpl in Hbody. apply ais_inner_transition_lengths in Hbody; [| exact Hw].
    destruct Hbody as [Hp Hl]. split; congruence.
Qed.

Lemma scan_invariant {C X Y : Type} (P : C -> Prop)
  (f : C -> X -> result (C * Y)) (xs : list X) :
  (forall c x0 c' y, P c -> f c x0 = Ok (c', y) -> P c') ->
  forall init c ys,
    P init -> scan f init xs = Ok (c, ys) -> P c /\ length ys = length xs.
Proof.
  intro Hstep. induction xs as [| x0 xs IH]; intros init c ys Hinit; simpl.
  - intro H. inversion H. subst. now split.
  - destruct (f init x0) as [[c1 y] |] eqn:Hf; [| discriminate].
    rewrite bind_Ok.
    destruct (scan f c1 xs) as [[c2 ys'] |] eqn:Hs; [| discriminate].
    rewrite bind_Ok. intro H. inversion H. subst.
    destruct (IH c1 c ys' (Hstep _ _ _ _ Hinit Hf) Hs) as [Hc Hlen].
    split; [exact Hc | simpl; now rewrite Hlen].
Qed.



Lemma rows_length (x0 : ndarray) (b d : nat) :
  shape x0 = [b; d] -> length (rows x0) = b.
Proof. intro H. unfold rows. rewrite H. now rewrite length_map, length_seq. Qed.

Lemma start_of_chain_length {RT : JaxRuntime} (op : TransitionOperator)
  (x0 : ndarray) (smc_state : SMCState op) (log_q_fn log_p_fn : LogProbFn)
  (point0 : list Point) (key0 : PRNGKey) :
  start_of_chain op x0 smc_state log_q_fn log_p_fn = Ok (point0, key0) ->
  length point0 = length (rows x0).
Proof.
  intro H. apply start_of_chain_inv in H. destruct H as (_ & _ & Hrepair).
  destruct (replace_invalid_samples_returns
              (map (create_point log_q_fn log_p_fn (uses_grad op)) (rows x0)) key0)
    as (out & Hout & Hlen & _).
  rewrite Hrepair in Hout. inversion Hout. subst out.
  now rewrite Hlen, length_map.
Qed.

Lemma map_middle_combine {A B D : Type} (a : list A) (b : list B) (d : list D) :
  length a = length b -> length b = length d ->
  map (fun t => snd (fst t)) (combine (combine a b) d) = b.
Proof.
  revert b d. induction a as [| u a IH]; intros [| v b] [| w d] Hab Hbd;
    simpl in *; try discriminate; try reflexivity.
  f_equal. apply IH; congruence.
Qed.

Lemma per_step_inputs_length {RT : JaxRuntime} {S : Type} (subkey : PRNGKey)
  (states : list S) (n : nat) (xs : list (PRNGKey * S * nat)) :
  per_step_inputs subkey states n = Ok xs ->
  length xs = n /\ length states = n /\ map (fun x1 => snd (fst x1)) xs = states.
Proof.
  unfold per_step_inputs.
  destruct (Nat.eqb (length states) n) eqn:E; [| discriminate].
  apply Nat.eqb_eq in E. intro H. inversion H. subst xs.
  repeat split.
  - rewrite !length_combine, length_map, length_seq, split_n_length. lia.
  - exact E.
  - apply map_middle_combine.
    + now rewrite split_n_length.
    + now rewrite length_map, length_seq.
Qed.













(** X2: the sizes of what a successful forward pass returns. *)
Theorem step_output_sizes {RT : JaxRuntime} (op : TransitionOperator) (n : nat)
  (betas : list R) (alpha : R) (use_resampling : bool) (threshold : R)
  (x0 : ndarray) (smc_state smc_state' : SMCState op)
  (log_q_fn log_p_fn : LogProbFn) (point : list Point) (log_w : list float)
  (infos : list (option float * Info op)) :
  step op n betas alpha use_resampling threshold x0 smc_state log_q_fn log_p_fn
  = Ok (point, log_w, smc_state', infos) ->
  exists batch_size dim,
    shape x0 = [batch_size; dim]
    /\ length point = batch_size
    /\ length log_w = batch_size
    /\ length (transition_operator_state smc_state') = n
    /\ length infos = n.
Proof.
  intro Hrun. apply step_inv in Hrun.
  destruct Hrun as (point0 & key0 & xs & ys & Hstart & Hxs & Hscan & _ & -> & ->).
  pose proof (start_of_chain_length _ _ _ _ _ _ _ Hstart) as H0.
  apply start_of_chain_inv in Hstart. destruct Hstart as (Hrank & _).
  unfold rank in Hrank.
  destruct (shape x0) as [| b [| d [| e sh]]] eqn:Hshape; try discriminate.
  rewrite (rows_length x0 b d Hshape) in H0.
  apply per_step_inputs_length in Hxs. destruct Hxs as (Hn & _).
  set (P := fun c : list Point * list float =>
              length (fst c) = b /\ length (snd c) = length (fst c)).
  assert (Hstep : forall c x1 c' y, P c ->
            body_fn op betas alpha use_resampling threshold log_q_fn log_p_fn c x1
            = Ok (c', y) -> P c').
  { intros c x1 c' y [Hc1 Hc2] Hb.
    destruct (body_fn_lengths _ _ _ _ _ _ _ _ _ _ _ Hc2 Hb) as [H1 H2].
    split; congruence. }
  assert (Hinit : P (point0, log_weight_contribution point0 0 betas alpha))
    by (split; [exact H0 | apply log_weight_contribution_length]).
  destruct (scan_invariant P _ xs Hstep _ _ _ Hinit Hscan) as ((Hp & Hw) & Hys).
  simpl in Hp, Hw. exists b, d. simpl. rewrite !length_map.
  repeat split; congruence.
Qed.

Lemma step_output_sizes_witness :
  exists point log_w smc_state' infos,
    @step det_runtime idle_operator 1 [0; 1 / 2; 1] 2 false (3 / 10) x0_with_nan
      (mkSMCState idle_operator [tt] O) guarded_log_prob flat_log_prob
    = Ok (point, log_w, smc_state', infos)
    /\ exists batch_size dim,
         shape x0_with_nan = [batch_size; dim]
         /\ length point = batch_size
         /\ length log_w = batch_size
         /\ length (transition_operator_state smc_state') = 1%nat
         /\ length infos = 1%nat.
Proof.
  do 4 eexists. split; [reflexivity |].
  eapply (@step_output_sizes det_runtime idle_operator 1 [0; 1 / 2; 1] 2 false
            (3 / 10) x0_with_nan (mkSMCState idle_operator [tt] O)).
  reflexivity.
Defined.









(** ** Further properties of the validity repair *)

(** X8: the repair never raises and never invents a state: on every batch, also
    an empty one or one without a valid particle, it returns a batch of the
    same size made of particles of the input. *)
Theorem replace_invalid_samples_total {RT : JaxRuntime} (point : list Point)
  (k : PRNGKey) :
  exists out,
    replace_invalid_samples_with_valid_ones point k = Ok out
    /\ length out = length point
    /\ Forall (fun w => In w point) out.
Proof.
  destruct (replace_invalid_samples_returns point k) as (out & Hout & Hlen & _).
  exists out. repeat split; try assumption.
  apply Forall_forall. intros w Hw.
  exact (replace_invalid_samples_In point out k w Hout Hw).
Qed.

Lemma replace_invalid_samples_keeps {RT : JaxRuntime} (point out : list Point)
  (k : PRNGKey) (j : nat) (pt : Point) :
  replace_invalid_samples_with_valid_ones point k = Ok out ->
  nth_error point j = Some pt -> valid_sample pt = true ->
  nth_error out j = Some pt.
Proof.
  intros Hout Hj Hv.
  destruct (replace_invalid_samples_returns point k) as (out' & Hout' & Hlen & Hnth).
  rewrite Hout in Hout'. inversion Hout'. subst out'.
  destruct (nth_error out j) as [w |] eqn:Hw.
  - destruct (Hnth _ _ Hw) as (u & i & Hu & _ & ->).
    rewrite Hj in Hu. inversion Hu. subst u. now rewrite Hv.
  - apply nth_error_None in Hw.
    assert (nth_error point j <> None) by congruence.
    apply nth_error_Some in H. lia.
Qed.

(** X9: with a valid particle in the batch, the repair returns a batch of the
    same size in which every particle is valid and every particle that was
    valid is still in its place. *)
Theorem replace_invalid_samples_repairs {RT : JaxRuntime} (point : list Point)
  (k : PRNGKey) :
  existsb valid_sample point = true ->
  exists out,
    replace_invalid_samples_with_valid_ones point k = Ok out
    /\ length out = length point
    /\ Forall finite_point out
    /\ forall j pt, nth_error point j = Some pt -> valid_sample pt = true ->
         nth_error out j = Some pt.
Proof.
  intro Hex.
  destruct (replace_invalid_samples_returns point k) as (out & Hout & Hlen & _).
  exists out. repeat split; try assumption.
  - eapply Forall_impl;
      [| exact (replace_invalid_samples_all_valid point out k Hex Hout)].
    intro pt. apply valid_sample_finite.
  - intros j pt. now apply (replace_invalid_samples_keeps point out k).
Qed.

Lemma replace_invalid_samples_repairs_witness :
  let good := {| x := origin; log_q := Fin 1; log_p := Fin 2; grad := None |} in
  let bad := {| x := origin; log_q := PInf; log_p := Fin 0; grad := None |} in
  exists out,
    @replace_invalid_samples_with_valid_ones det_runtime [bad; good; bad; good] O
    = Ok out
    /\ length out = 4%nat
    /\ Forall finite_point out
    /\ forall j pt, nth_error [bad; good; bad; good] j = Some pt ->
         valid_sample pt = true -> nth_error out j = Some pt.
Proof.
  intros good bad.
  apply (@replace_invalid_samples_repairs det_runtime [bad; good; bad; good] O).
  reflexivity.
Defined.

Lemma replace_invalid_samples_all_valid_id {RT : JaxRuntime} (point : list Point)
  (k : PRNGKey) :
  forallb valid_sample point = true ->
  replace_invalid_samples_with_valid_ones point k = Ok point.
Proof.
  intro Hall.
  destruct (replace_invalid_samples_returns point k) as (out & Hout & Hlen & Hnth).
  rewrite Hout. f_equal. apply nth_error_ext. intro j.
  destruct (nth_error point j) as [pt |] eqn:Hj.
  - apply (replace_invalid_samples_keeps point out k j pt Hout Hj).
    rewrite forallb_forall in Hall. apply Hall.
    now apply nth_error_In in Hj.
  - apply nth_error_None. apply nth_error_None in Hj. lia.
Qed.

(** X10: a batch of valid particles goes through the repair unchanged, whatever
    the key; so repairing a repaired batch changes nothing. *)
Theorem replace_invalid_samples_idempotent {RT : JaxRuntime} (point : list Point)
  (k : PRNGKey) :
  (forallb valid_sample point = true ->
   replace_invalid_samples_with_valid_ones point k = Ok point)
  /\ (existsb valid_sample point = true ->
      forall out k',
        replace_invalid_samples_with_valid_ones point k = Ok out ->
        replace_invalid_samples_with_valid_ones out k' = Ok out).
Proof.
  split.
  - apply replace_invalid_samples_all_valid_id.
  - intros Hex out k' Hout. apply replace_invalid_samples_all_valid_id.
    apply forallb_forall. intros pt Hpt.
    pose proof (replace_invalid_samples_all_valid point out k Hex Hout) as Hall.
    rewrite Forall_forall in Hall. now apply Hall.
Qed.

Lemma replace_invalid_samples_idempotent_witness :
  let good := {| x := origin; log_q := Fin 1; log_p := Fin 2; grad := None |} in
  let bad := {| x := [NaN; Fin 0]; log_q := Fin 0; log_p := Fin 0; grad := None |} in
  @replace_invalid_samples_with_valid_ones det_runtime [good; good] 5%nat
  = Ok [good; good]
  /\ @replace_invalid_samples_with_valid_ones det_runtime [good; good] 7%nat
     = Ok [good; good].
Proof.
  intros good bad. split.
  - apply (proj1 (@replace_invalid_samples_idempotent det_runtime [good; good]
                    5%nat)).
    reflexivity.
  - apply (proj2 (@replace_invalid_samples_idempotent det_runtime [bad; good]
                    3%nat) eq_refl [good; good] 7%nat).
    reflexivity.
Defined.

(** ** Further properties of the inner transition *)

Lemma select_all_true {A : Type} (mask : list bool) (a b : list A) :
  length mask = length a -> length a = length b ->
  forallb (fun m => m) mask = true -> select mask a b = a.
Proof.
  revert a b. induction mask as [| m mask IH]; intros [| u a] [| v b] Ha Hb Hm;
    simpl in *; try discriminate; try reflexivity.
  apply andb_true_iff in Hm. destruct Hm as [-> Hm].
  f_equal. apply IH; congruence.
Qed.

Lemma select_all_false {A : Type} (mask : list bool) (a b : list A) :
  length mask = length a -> length a = length b ->
  existsb (fun m => m) mask = false -> select mask a b = b.
Proof.
  revert a b. induction mask as [| m mask IH]; intros [| u a] [| v b] Ha Hb Hm;
    simpl in *; try discriminate; try reflexivity.
  apply orb_false_iff in Hm. destruct Hm as [-> Hm].
  f_equal. apply IH; congruence.
Qed.

Lemma forallb_valid_samples (point : list Point) :
  forallb (fun m => m) (valid_samples point) = forallb valid_sample point.
Proof. induction point as [| pt point IH]; simpl; now rewrite ?IH. Qed.

(** X11: after a successful inner transition a particle whose proposal is valid
    carries the proposal, and its log-weight has grown by the increment taken
    on the proposal; the operator's new state and diagnostics are passed on
    as they are. *)
Theorem ais_inner_transition_accepts {RT : JaxRuntime} (op : TransitionOperator)
  (point : list Point) (log_w : list float) (trans_op_state : TState op)
  (betas : list R) (i : nat) (log_q_fn log_p_fn : LogProbFn) (alpha : R)
  (point' : list Point) (log_w' : list float) (state' : TState op) (info : Info op) :
  length log_w = length point ->
  ais_inner_transition op point log_w trans_op_state betas i log_q_fn log_p_fn alpha
  = Ok ((point', log_w'), (state', info)) ->
  let stepped :=
    op_step op point trans_op_state (index 0 betas i) alpha log_q_fn log_p_fn in
  state' = snd (fst stepped)
  /\ info = snd stepped
  /\ forall (j : nat) (new : Point) (w : float),
       nth_error (fst (fst stepped)) j = Some new ->
       nth_error log_w j = Some w ->
       valid_sample new = true ->
       nth_error point' j = Some new
       /\ nth_error log_w' j
          = Some (fadd w (log_weight_contribution_point new i betas alpha)).
Proof.
  intros Hw Hrun stepped.
  apply ais_inner_transition_inv in Hrun. cbv zeta in Hrun. fold stepped in Hrun.
  destruct Hrun as (Hlen & Hsel & Hadd & Hs & Hi).
  split; [exact Hs |]. split; [exact Hi |].
  intros j new w Hnew Hwj Hvalid.
  assert (Hj : nth_error point' j = Some new).
  { destruct (nth_error point j) as [old |] eqn:Hold.
    - rewrite Hsel.
      erewrite select_nth_error;
        [| unfold valid_samples; rewrite nth_error_map, Hnew; reflexivity
         | exact Hnew | exact Hold].
      now rewrite Hvalid.
    - apply nth_error_None in Hold.
      assert (Hn : nth_error (fst (fst stepped)) j <> None) by congruence.
      apply nth_error_Some in Hn. lia. }
  split; [exact Hj |].
  assert (Hlen' : length point' = length point).
  { rewrite Hsel. apply select_length; [apply valid_samples_length | exact Hlen]. }
  apply (vadd_nth_error log_w (log_weight_contribution point' i betas alpha));
    try assumption.
  - rewrite log_weight_contribution_length. congruence.
  - unfold log_weight_contribution. now rewrite nth_error_map, Hj.
Qed.

Lemma ais_inner_transition_accepts_witness :
  let old := {| x := origin; log_q := Fin 1; log_p := Fin 2; grad := None |} in
  let w' := fadd (Fin 5) (log_weight_contribution_point old 1 [0; 1 / 2; 1] 2) in
  @ais_inner_transition det_runtime idle_operator [old] [Fin 5] tt [0; 1 / 2; 1] 1
    flat_log_prob flat_log_prob 2 = Ok (([old], [w']), (tt, tt))
  /\ nth_error [old] 0 = Some old
  /\ nth_error [w'] 0 = Some w'.
Proof.
  intros old w'. split; [reflexivity |].
  apply (proj2 (proj2 (@ais_inner_transition_accepts det_runtime idle_operator
                         [old] [Fin 5] tt [0; 1 / 2; 1] 1 flat_log_prob
                         flat_log_prob 2 [old] [w'] tt tt eq_refl eq_refl))
           O old (Fin 5));
    reflexivity.
Defined.

(** X12: when every proposal is valid the batch carried on is the proposed batch;
    when none is, it is the batch the transition was given. *)
Theorem ais_inner_transition_all_or_none {RT : JaxRuntime}
  (op : TransitionOperator)
  (point : list Point) (log_w : list float) (trans_op_state : TState op)
  (betas : list R) (i : nat) (log_q_fn log_p_fn : LogProbFn) (alpha : R)
  (point' : list Point) (log_w' : list float) (state' : TState op) (info : Info op) :
  ais_inner_transition op point log_w trans_op_state betas i log_q_fn log_p_fn alpha
  = Ok ((point', log_w'), (state', info)) ->
  let new_point :=
    fst (fst (op_step op point trans_op_state (index 0 betas i) alpha
                log_q_fn log_p_fn)) in
  (forallb valid_sample new_point = true -> point' = new_point)
  /\ (existsb valid_sample new_point = false -> point' = point).
Proof.
  intros Hrun new_point.
  apply ais_inner_transition_inv in Hrun. cbv zeta in Hrun. fold new_point in Hrun.
  destruct Hrun as (Hlen & Hsel & _). split; intro H; rewrite Hsel.
  - apply select_all_true;
      [apply valid_samples_length | exact Hlen | now rewrite forallb_valid_samples].
  - apply select_all_false;
      [apply valid_samples_length | exact Hlen | now rewrite existsb_valid_samples].
Qed.

Lemma ais_inner_transition_all_or_none_witness :
  let old := {| x := origin; log_q := Fin 1; log_p := Fin 2; grad := None |} in
  let w' := fadd (Fin 5) (log_weight_contribution_point old 1 [0; 1 / 2; 1] 2) in
  @ais_inner_transition det_runtime nan_operator [old] [Fin 5] tt [0; 1 / 2; 1] 1
    flat_log_prob flat_log_prob 2 = Ok (([old], [w']), (tt, tt))
  /\ [old] = [old].
Proof.
  intros old w'. split; [reflexivity |].
  apply (proj2 (@ais_inner_transition_all_or_none det_runtime nan_operator
                  [old] [Fin 5] tt [0; 1 / 2; 1] 1 flat_log_prob flat_log_prob 2
                  [old] [w'] tt tt eq_refl)).
  reflexivity.
Defined.

(** ** Further properties of the schedule *)





Lemma ln_100 : ln 100 = 2 * ln 10.
Proof. replace 100 with (10 * 10) by lra. rewrite ln_mult by lra. ring. Qed.

Lemma log10_hundredth : log10 (1 / 100) = - 2.
Proof.
  unfold log10. pose proof ln_10_pos.
  replace (1 / 100) with (/ 100) by lra.
  rewrite ln_Rinv by lra. rewrite ln_100. field. lra.
Qed.







(** X14: with linear spacing, level [i] of the schedule is [i / (n + 1)]: the
    stages are [1 / (n + 1)] apart, for every [n], zero included. *)
Theorem build_betas_linear_levels (n : nat) :
  exists betas,
    build_betas n "linear" = Ok betas
    /\ length betas = (n + 2)%nat
    /\ forall i, (i <= n + 1)%nat -> nth i betas 0 = INR i / INR (n + 1).
Proof.
  eexists. split; [apply build_betas_linear |]. split.
  - rewrite length_map, length_seq. lia.
  - intros i Hi. rewrite nth_map_seq by lia.
    rewrite interpolate_eq. replace (n + 1)%nat with (S n) by lia. ring.
Qed.

Lemma geom_at_ratio (g j : nat) :
  geom_at g (S j) = geom_at g j * Rpower 100 (/ INR (S g)).
Proof.
  unfold geom_at. rewrite !interpolate_eq, log10_hundredth, log10_1.
  pose proof (INR_S_pos g) as Hg.
  replace (-2 + (0 - -2) * (INR (S j) / INR (S g)))
    with ((-2 + (0 - -2) * (INR j / INR (S g))) + 2 * / INR (S g))
    by (rewrite (S_INR j); field; lra).
  rewrite Rpower_plus. f_equal.
  unfold Rpower. rewrite ln_100. f_equal. ring.
Qed.

(** X15: with geometric spacing and [n >= 1], the first [n / 4 + 1] levels are
    evenly spaced from 0 towards 0.01, the next level is 0.01 itself, and from
    there on every level is the previous one times the same ratio, up to the
    last level, which is 1. *)
Theorem build_betas_geometric_levels (n : nat) :
  (1 <= n)%nat ->
  let l := (n / 4)%nat in
  let g := (n - n / 4 - 1)%nat in
  exists betas,
    build_betas n "geometric" = Ok betas
    /\ (forall i, (i <= l)%nat ->
          nth i betas 0 = 1 / 100 * (INR i / INR (l + 1)))
    /\ nth (l + 1) betas 0 = 1 / 100
    /\ (forall j, (j <= g)%nat ->
          nth (l + 1 + (j + 1)) betas 0
          = nth (l + 1 + j) betas 0 * Rpower 100 (/ INR (g + 1)))
    /\ nth (l + 1 + (g + 1)) betas 0 = 1.
Proof.
  intros Hn l g. eexists. split; [now apply build_betas_geometric |].
  fold l g.
  assert (Hlen : length (map (interpolate 0 (1 / 100) (S l)) (seq 0 (S l)))
                 = (l + 1)%nat)
    by (rewrite length_map, length_seq; lia).
  assert (Hgeo : forall j, (j <= S g)%nat ->
            nth (l + 1 + j)
              (map (interpolate 0 (1 / 100) (S l)) (seq 0 (S l))
               ++ map (geom_at g) (seq 0 (S (S g)))) 0
            = geom_at g j).
  { intros j Hj. rewrite app_nth2 by lia. rewrite Hlen.
    replace (l + 1 + j - (l + 1))%nat with j by lia.
    apply nth_map_seq. lia. }
  repeat split.
  - intros i Hi. rewrite app_nth1 by lia. rewrite nth_map_seq by lia.
    rewrite interpolate_eq. replace (l + 1)%nat with (S l) by lia. ring.
  - replace (l + 1)%nat with (l + 1 + 0)%nat at 1 by lia.
    rewrite Hgeo by lia. apply geom_at_first.
  - intros j Hj. rewrite !Hgeo by lia.
    replace (j + 1)%nat with (S j) by lia.
    replace (g + 1)%nat with (S g) by lia. apply geom_at_ratio.
  - rewrite Hgeo by lia. replace (g + 1)%nat with (S g) by lia.
    apply geom_at_last.
Qed.

Lemma build_betas_geometric_levels_witness :
  exists betas,
    build_betas 8 "geometric" = Ok betas
    /\ (forall i, (i <= 2)%nat -> nth i betas 0 = 1 / 100 * (INR i / INR (2 + 1)))
    /\ nth (2 + 1) betas 0 = 1 / 100
    /\ (forall j, (j <= 5)%nat ->
          nth (2 + 1 + (j + 1)) betas 0
          = nth (2 + 1 + j) betas 0 * Rpower 100 (/ INR (5 + 1)))
    /\ nth (2 + 1 + (5 + 1)) betas 0 = 1.
Proof.
  apply (build_betas_geometric_levels 8). lia.
Defined.

(** ** Finite log-weights *)
















(** * The flow recipe *)

Lemma contains_split_coupling (name : string) :
  BuildFlow.contains ["split_coupling"%string] name = true
  <-> name = "split_coupling"%string.
Proof.
  unfold BuildFlow.contains. simpl. rewrite orb_false_r. apply String.eqb_eq.
Qed.

Lemma all_split_coupling (names : list string) :
  forallb (BuildFlow.contains ["split_coupling"%string]) names = true
  <-> Forall (fun name => name = "split_coupling"%string) names.
Proof.
  rewrite forallb_forall, Forall_forall.
  split; intros H name Hin; apply contains_split_coupling; now apply H.
Qed.

Lemma create_flow_recipe_asserts_aux (config : BuildFlow.FlowDistConfig) :
  (exists recipe, BuildFlow.create_flow_recipe config = Ok recipe) ->
  Forall (fun name => name = "split_coupling"%string)
    (BuildFlow.flow_type_of config).
Proof.
  unfold BuildFlow.create_flow_recipe. cbv zeta.
  destruct (forallb _ (BuildFlow.flow_type_of config)) eqn:E.
  - intros _. now apply all_split_coupling.
  - intros [recipe H]. discriminate.
Qed.

(** X16: [create_flow_recipe] returns a recipe exactly when every listed flow type
    is [split_coupling] (a single name counting as a list of one, the empty
    list passing), and fails with an assertion error otherwise. *)
Theorem create_flow_recipe_asserts (config : BuildFlow.FlowDistConfig) :
  ((exists recipe, BuildFlow.create_flow_recipe config = Ok recipe)
   <-> Forall (fun name => name = "split_coupling"%string)
         (BuildFlow.flow_type_of config))
  /\ (forall e, BuildFlow.create_flow_recipe config = Err e -> e = AssertionError).
Proof.
  unfold BuildFlow.create_flow_recipe. cbv zeta.
  destruct (forallb _ (BuildFlow.flow_type_of config)) eqn:E.
  - split; [split |].
    + intros _. now apply all_split_coupling.
    + intros _. now eexists.
    + intros e He. discriminate.
  - split; [split |].
    + intros [recipe H]. discriminate.
    + intro H. apply all_split_coupling in H. congruence.
    + intros e He. now inversion He.
Qed.

Lemma contains_when_all (names : list string) :
  Forall (fun name => name = "split_coupling"%string) names ->
  BuildFlow.contains names "split_coupling"
  = match names with [] => false | _ :: _ => true end.
Proof.
  intro H. destruct names as [| name names]; [reflexivity |].
  inversion H. subst. reflexivity.
Qed.

(** X17: the chain of a recipe holds at most two layers: the act-norm layer first,
    when the configuration asks for one, then one split-coupling layer, when
    the list of flow types is not empty. Naming the type more than once adds
    no layer, and an empty list of types gives a chain without coupling. *)
Theorem create_flow_recipe_chain (config : BuildFlow.FlowDistConfig)
  (recipe : BuildFlow.FlowRecipe) :
  BuildFlow.create_flow_recipe config = Ok recipe ->
  let act_norm_layers :=
    if BuildFlow.act_norm config
    then [BuildFlow.ActNormLayer (BuildFlow.dim config)
            (BuildFlow.identity_init config)]
    else [] in
  let coupling_layers :=
    match BuildFlow.flow_type_of config with
    | [] => []
    | _ :: _ =>
        [BuildFlow.SplitCouplingBijector (BuildFlow.dim config)
           (BuildFlow.identity_init config)
           (BuildFlow.conditioner_mlp_units config)]
    end in
  BuildFlow.make_bijector recipe tt
  = BuildFlow.ChainWithExtra (act_norm_layers ++ coupling_layers)
  /\ BuildFlow.recipe_dim recipe = BuildFlow.dim config
  /\ BuildFlow.recipe_n_layers recipe = BuildFlow.n_layers config.
Proof.
  intro Hrecipe.
  assert (Hall : Forall (fun name => name = "split_coupling"%string)
                   (BuildFlow.flow_type_of config))
    by (apply (create_flow_recipe_asserts_aux config); now exists recipe).
  unfold BuildFlow.create_flow_recipe in Hrecipe. cbv zeta in Hrecipe.
  destruct (forallb _ (BuildFlow.flow_type_of config)); [| discriminate].
  inversion Hrecipe. subst recipe. simpl.
  rewrite (contains_when_all _ Hall).
  destruct (BuildFlow.act_norm config), (BuildFlow.flow_type_of config);
    now repeat split.
Qed.

Lemma create_flow_recipe_asserts_witness :
  (exists recipe,
     BuildFlow.create_flow_recipe
       (BuildFlow.mkConfig 2 3 [8; 8]%nat (BuildFlow.ManyTypes []) false true 2)
     = Ok recipe)
  /\ BuildFlow.create_flow_recipe
       (BuildFlow.mkConfig 2 3 [8; 8]%nat
          (BuildFlow.ManyTypes ["split_coupling"; "spline"]%string) true true 2)
     = Err AssertionError.
Proof.
  split.
  - apply (proj1 (create_flow_recipe_asserts
                    (BuildFlow.mkConfig 2 3 [8; 8]%nat (BuildFlow.ManyTypes [])
                       false true 2))).
    constructor.
  - destruct (BuildFlow.create_flow_recipe
                (BuildFlow.mkConfig 2 3 [8; 8]%nat
                   (BuildFlow.ManyTypes ["split_coupling"; "spline"]%string)
                   true true 2)) as [recipe | e] eqn:E.
    + discriminate E.
    + f_equal.
      exact (proj2 (create_flow_recipe_asserts
                      (BuildFlow.mkConfig 2 3 [8; 8]%nat
                         (BuildFlow.ManyTypes ["split_coupling"; "spline"]%string)
                         true true 2)) e E).
Defined.

Lemma create_flow_recipe_chain_witness :
  exists recipe,
    BuildFlow.create_flow_recipe
      (BuildFlow.mkConfig 2 3 [8; 8]%nat
         (BuildFlow.ManyTypes ["split_coupling"; "split_coupling"]%string)
         true true 2) = Ok recipe
    /\ BuildFlow.make_bijector recipe tt
       = BuildFlow.ChainWithExtra
           [BuildFlow.ActNormLayer 2 true;
            BuildFlow.SplitCouplingBijector 2 true [8; 8]%nat].
Proof.
  eexists. split; [reflexivity |].
  apply (create_flow_recipe_chain
           (BuildFlow.mkConfig 2 3 [8; 8]%nat
              (BuildFlow.ManyTypes ["split_coupling"; "split_coupling"]%string)
              true true 2)).
  reflexivity.
Defined.

(** * The reference problem of the sampler tests *)











(** * The forward pass without intermediate distributions *)


